(** * CIR serial telemetry viewer: ingestion pipeline of [New_ke_xin_du.py]

    A shallow embedding of the serial reader loop ([SerialReader.run]), of the
    line parser and rolling buffers of [RealTimeCIRPlot.handle_line], of
    [RealTimeCIRPlot.clear_data] and of the redraw gate, with the properties
    the specification states about them. *)

From Stdlib Require Import QArith Lqa Ascii String Strings.Byte.
From stdpp Require Import gmap list.

Local Open Scope N_scope.

(** ** Text

    A Python [str] is a sequence of Unicode code points. *)

Abbreviation pystr := (list N).

(** An ASCII literal as a Python string. *)
Definition py (s : string) : pystr := N_of_ascii <$> list_ascii_of_string s.

Module Text.

(** [Py_UNICODE_ISSPACE]: the code points [str.strip()] removes and the
    pattern class [\s] accepts. *)
Definition isspace (c : N) : bool :=
  ((9 <=? c) && (c <=? 13)) || ((28 <=? c) && (c <=? 32))
  || (c =? 133) || (c =? 160) || (c =? 5760)
  || ((8192 <=? c) && (c <=? 8202))
  || (c =? 8232) || (c =? 8233) || (c =? 8239) || (c =? 8287) || (c =? 12288).

(** The class [[A-Za-z0-9]]. *)
Definition isalnum_ascii (c : N) : bool :=
  ((65 <=? c) && (c <=? 90)) || ((97 <=? c) && (c <=? 122))
  || ((48 <=? c) && (c <=? 57)).

Fixpoint lstrip (s : pystr) : pystr :=
  match s with
  | c :: s' => if isspace c then lstrip s' else s
  | [] => []
  end.

Definition rstrip (s : pystr) : pystr := reverse (lstrip (reverse s)).

(** [s.strip()] *)
Definition strip (s : pystr) : pystr := rstrip (lstrip s).

End Text.

(** ** Regular expressions

    The fragment of Python's [re] that the four patterns of [handle_line] are
    written in, with the backtracking semantics of the [re] engine: greedy
    repetition and option, ordered alternation, capturing groups. *)

Module Re.

Inductive regex : Type :=
| Eps                                (* the empty pattern *)
| Lit (c : N)                        (* a literal character *)
| Rep (min : nat) (cls : N → bool)   (* [cls*] (min 0) and [cls+] (min 1), greedy *)
| Opt (r : regex)                    (* [(?:r)?], greedy *)
| Seq (r1 r2 : regex)
| Alt (r1 r2 : regex)                (* [r1|r2], left first *)
| Grp (r : regex).                   (* a capturing group [(r)] *)

(** A literal word. *)
Fixpoint word (w : pystr) : regex :=
  match w with
  | [] => Eps
  | c :: w' => Seq (Lit c) (word w')
  end.

Section Matcher.
Context {R : Type}.

(** Greedy repetition of a character class: take the longest run first and
    give characters back one at a time while the rest of the pattern fails. *)
Fixpoint rep (cls : N → bool) (min : nat) (s : pystr)
    (k : pystr → option R) : option R :=
  match s with
  | c :: s' =>
      if cls c then
        match rep cls (pred min) s' k with
        | Some r => Some r
        | None => match min with O => k s | S _ => None end
        end
      else match min with O => k s | S _ => None end
  | [] => match min with O => k s | S _ => None end
  end.

(** [rmatch r s caps k]: match [r] at the head of [s], then continue with
    [k] on the rest; [caps] are the groups closed so far, in order.  [None]
    makes the caller backtrack.  The groups of the patterns below are not
    nested, so the order of closing is the order of the group numbers. *)
Fixpoint rmatch (r : regex) (s : pystr) (caps : list pystr)
    (k : pystr → list pystr → option R) : option R :=
  match r with
  | Eps => k s caps
  | Lit c =>
      match s with
      | c' :: s' => if c =? c' then k s' caps else None
      | [] => None
      end
  | Rep min cls => rep cls min s (λ s', k s' caps)
  | Opt r1 =>
      match rmatch r1 s caps k with
      | Some x => Some x
      | None => k s caps
      end
  | Seq r1 r2 => rmatch r1 s caps (λ s' caps', rmatch r2 s' caps' k)
  | Alt r1 r2 =>
      match rmatch r1 s caps k with
      | Some x => Some x
      | None => rmatch r2 s caps k
      end
  | Grp r1 =>
      rmatch r1 s caps
        (λ s' caps', k s' (caps' ++ [take (length s - length s') s]))
  end.
End Matcher.

(** A match of [r] starting at the head of [s]: the number of characters
    matched, and the groups. *)
Definition match_at (r : regex) (s : pystr) : option (nat * list pystr) :=
  rmatch r s [] (λ s' caps, Some ((length s - length s')%nat, caps)).

(** What [re.findall] reports for a match of a pattern with two groups: the
    pair of the groups. *)
Definition groups2 (caps : list pystr) : pystr * pystr :=
  (nth 0 caps [], nth 1 caps []).

(** [re.findall(r, s)] for a pattern with two groups: the matches that do not
    overlap, scanning from the left.  [skip] counts the characters of the last
    match still to be passed over: after a match of [n] characters the search
    resumes [n] characters further.  (No pattern of this program matches the
    empty string, so every match moves the search on.) *)
Fixpoint findall_from (r : regex) (skip : nat) (s : pystr)
    : list (pystr * pystr) :=
  match s with
  | [] =>
      match skip, match_at r [] with
      | O, Some (_, caps) => [groups2 caps]
      | _, _ => []
      end
  | _ :: s' =>
      match skip with
      | S n => findall_from r n s'
      | O =>
          match match_at r s with
          | Some (n, caps) => groups2 caps :: findall_from r (pred n) s'
          | None => findall_from r 0 s'
          end
      end
  end.

Definition findall (r : regex) (s : pystr) : list (pystr * pystr) :=
  findall_from r 0 s.

End Re.

(** ** The line parser of [handle_line] *)

(** The Unicode character database of the Python runtime, as far as the
    parser consults it: [Py_UNICODE_TODECIMAL] on the code points beyond
    ASCII (the value of a decimal digit of category Nd, [None] for any other
    code point).  The table is part of the interpreter, not of this program;
    the development holds for every such table. *)
Class UnicodeDB := { unicode_decimal : N → option N }.

(** The table that knows no decimal digit beyond ASCII. *)
Definition ascii_digits_only : UnicodeDB := {| unicode_decimal := λ _, None |}.

Module Parser.
Import Text Re.

Section WithUnicode.
Context `{UnicodeDB}.

(** The decimal value of a digit: what [\d] accepts and [float] reads. *)
Definition decimal (c : N) : option N :=
  if (48 <=? c) && (c <=? 57) then Some (c - 48)
  else if c <? 128 then None
  else unicode_decimal c.

Definition isdigit (c : N) : bool := bool_decide (is_Some (decimal c)).

Local Infix "⋅" := Seq (at level 60, right associativity).

(** [([A-Za-z0-9]+)] *)
Definition key : regex := Grp (Rep 1 isalnum_ascii).
(** [\s*] *)
Definition ws : regex := Rep 0 isspace.
(** [(-?\d+(?:\.\d+)?)] *)
Definition number : regex :=
  Grp (Opt (Lit 45) ⋅ Rep 1 isdigit ⋅ Opt (Lit 46 ⋅ Rep 1 isdigit)).
(** [(?:cm|mm|m|°|deg)?] *)
Definition unit : regex :=
  Opt (Alt (word (py "cm")) (Alt (word (py "mm")) (Alt (word (py "m"))
      (Alt (Lit 176) (word (py "deg")))))).

(** [r'([A-Za-z0-9]+):\s*(-?\d+(?:\.\d+)?)'] *)
Definition pattern_colon : regex := key ⋅ Lit 58 ⋅ ws ⋅ number.
(** [r'([A-Za-z0-9]+)\s*=\s*(-?\d+(?:\.\d+)?)'] *)
Definition pattern_equals : regex := key ⋅ ws ⋅ Lit 61 ⋅ ws ⋅ number.
(** [r'([A-Za-z0-9]+)\s*:\s*(-?\d+(?:\.\d+)?)(?:cm|mm|m|°|deg)?'] *)
Definition pattern_colon_unit : regex :=
  key ⋅ ws ⋅ Lit 58 ⋅ ws ⋅ number ⋅ unit.
(** [r'([A-Za-z0-9]+)\s*=\s*(-?\d+(?:\.\d+)?)(?:cm|mm|m|°|deg)?'] *)
Definition pattern_equals_unit : regex :=
  key ⋅ ws ⋅ Lit 61 ⋅ ws ⋅ number ⋅ unit.

Definition patterns : list regex :=
  [pattern_colon; pattern_equals; pattern_colon_unit; pattern_equals_unit].

(** The value of a run of decimal digits, most significant first; [None]
    when a character is no digit. *)
Fixpoint digits (acc : N) (s : pystr) : option N :=
  match s with
  | [] => Some acc
  | c :: s' =>
      match decimal c with
      | Some d => digits (10 * acc + d) s'
      | None => None
      end
  end.

(** The part before the first [.] and the part after it. *)
Fixpoint split_point (s : pystr) : pystr * pystr :=
  match s with
  | [] => ([], [])
  | c :: s' =>
      if c =? 46 then ([], s')
      else let '(a, b) := split_point s' in (c :: a, b)
  end.

(** [float(v)] on decimal literals: an optional sign, digits, an optional
    fraction.  The result is the number the literal denotes, as a reduced
    fraction (the rounding to a binary64, which gives [inf] for a literal
    beyond its range, is outside the model), and [None]
    stands for [ValueError].  Python's [float] reads further forms (an
    exponent, [inf], [nan], digit separators), on which the model answers
    [None] as well; [handle_line] passes it the second group of a match
    only, which is made of a sign, digits and a point. *)
Definition py_float (v : pystr) : option Q :=
  let v := strip v in
  let '(neg, body) :=
    match v with
    | 45 :: b => (true, b)
    | 43 :: b => (false, b)
    | _ => (false, v)
    end in
  let '(ip, fp) := split_point body in
  match ip ++ fp with
  | [] => None
  | ds =>
      match digits 0 ds with
      | Some m =>
          let num := if neg : bool then (- Z.of_N m)%Z else Z.of_N m in
          Some (Qred (num # Z.to_pos (10 ^ Z.of_nat (length fp))))
      | None => None
      end
  end.

(** The body of [for k, v in matches]: [values[k.strip()] = float(v)], the
    token being dropped (with a printed warning) on [ValueError]. *)
Definition store_match (values : gmap pystr Q) (kv : pystr * pystr)
    : gmap pystr Q :=
  match py_float kv.2 with
  | Some x => <[strip kv.1 := x]> values
  | None => values
  end.

Definition values_of (matches : list (pystr * pystr)) : gmap pystr Q :=
  foldl store_match ∅ matches.

(** [for pattern in patterns]: the first pattern with a match fills
    [values], and the loop is left. *)
Fixpoint try_patterns (ps : list regex) (line : pystr) : gmap pystr Q :=
  match ps with
  | [] => ∅
  | p :: ps' =>
      match findall p line with
      | [] => try_patterns ps' line
      | matches => values_of matches
      end
  end.

(** Lines 398 to 421 of [handle_line]: the mapping [values] computed from a
    received line; empty for a line that is blank once stripped. *)
Definition parse (line : pystr) : gmap pystr Q :=
  match strip line with
  | [] => ∅
  | line' => try_patterns patterns line'
  end.

(** The matches [handle_line] reads its values from: those of the first
    pattern that has any. *)
Fixpoint winning_matches (ps : list regex) (line : pystr)
    : list (pystr * pystr) :=
  match ps with
  | [] => []
  | p :: ps' =>
      match findall p line with
      | [] => winning_matches ps' line
      | matches => matches
      end
  end.

End WithUnicode.
End Parser.

(** ** Bounded buffers

    [collections.deque(maxlen=n)]: appending to a full deque discards the
    item at the left end. *)

Module Deque.

Record deque (A : Type) : Type := Build { maxlen : nat; items : list A }.
Arguments Build {A} _ _.
Arguments maxlen {A} _.
Arguments items {A} _.

(** [deque(maxlen=n)] *)
Definition new {A} (n : nat) : deque A := Build n [].

(** [d.append(x)]: the item is added at the right, and when that makes the
    deque longer than [maxlen] the leftmost item is removed. *)
Definition append {A} (d : deque A) (x : A) : deque A :=
  let l := items d ++ [x] in
  Build (maxlen d) (if (maxlen d <? length l)%nat then drop 1 l else l).

(** [d.clear()] *)
Definition clear {A} (d : deque A) : deque A := Build (maxlen d) [].

Arguments append : simpl never.
Arguments clear : simpl never.

(** [len(d)] *)
Definition len {A} (d : deque A) : nat := length (items d).

End Deque.

(** ** The buffers of [RealTimeCIRPlot] and the operations on them *)

Module Plot.
Import Deque.

(** What a field buffer holds: a parsed number, or [np.nan] for a field the
    line did not carry. *)
Inductive sample_value : Type :=
| Value (x : Q)
| NaN.

(** The attributes of [RealTimeCIRPlot] that [handle_line] and [clear_data]
    read and write. *)
Record plot : Type := Build {
  fields : list pystr;
  data_buffers : gmap pystr (deque sample_value);
  sample_indices : deque Z;
  timestamps : deque Q;
  last_update_time : Q;
  update_interval : Q
}.

Definition set_buffers (st : plot) (b : gmap pystr (deque sample_value))
    (i : deque Z) (t : deque Q) : plot :=
  Build (fields st) b i t (last_update_time st) (update_interval st).

Definition set_last_update_time (st : plot) (t : Q) : plot :=
  Build (fields st) (data_buffers st) (sample_indices st) (timestamps st)
    t (update_interval st).

(** [self.fields] *)
Definition known_fields : list pystr :=
  [py "D"; py "fom"; py "PD01"; py "PD02"; py "PD12"; py "azimuth";
   py "elevation"].

(** [self.max_samples = 500] *)
Definition max_samples : nat := 500.
Arguments max_samples : simpl never.

(** [{f: deque(maxlen=self.max_samples) for f in self.fields}] *)
Definition new_buffers (fs : list pystr) (n : nat)
    : gmap pystr (deque sample_value) :=
  foldl (λ m f, <[f := new n]> m) ∅ fs.

(** The state [__init__] leaves (lines 125 and 276 to 283). *)
Definition init : plot :=
  Build known_fields (new_buffers known_fields max_samples)
    (new max_samples) (new max_samples) 0 20.

(** [idx = self.sample_indices[-1] + 1 if self.sample_indices else 0] *)
Definition next_index (st : plot) : Z :=
  match last (items (sample_indices st)) with
  | Some i => (i + 1)%Z
  | None => 0%Z
  end.

(** [values[f] if f in values else np.nan] *)
Definition value_for (values : gmap pystr Q) (f : pystr) : sample_value :=
  match values !! f with
  | Some x => Value x
  | None => NaN
  end.

(** The loop [for f in self.fields] of lines 435 to 440.  The subscript
    [self.data_buffers[f]] raises [KeyError] for a field without a buffer:
    the loop then stops with the buffers as they are, and the flag is
    [false]. *)
Fixpoint fill_fields (fs : list pystr) (values : gmap pystr Q)
    (bufs : gmap pystr (deque sample_value))
    : gmap pystr (deque sample_value) * bool :=
  match fs with
  | [] => (bufs, true)
  | f :: fs' =>
      match bufs !! f with
      | Some d => fill_fields fs' values (<[f := append d (value_for values f)]> bufs)
      | None => (bufs, false)
      end
  end.

(** Lines 428 to 440: a sample is appended to every series.  [timestamp] is
    what [time.time()] returns on line 429. *)
Definition append_sample (values : gmap pystr Q) (timestamp : Q) (st : plot)
    : plot * bool :=
  let idx := next_index st in
  let indices := append (sample_indices st) idx in
  let stamps := append (timestamps st) timestamp in
  let '(bufs, ok) := fill_fields (fields st) values (data_buffers st) in
  (set_buffers st bufs indices stamps, ok).

(** The redraw gate of lines 446 to 449, [current_time] being the clock in
    milliseconds: the flag tells whether [update_plots()] is called. *)
Definition throttle (current_time : Q) (st : plot) : bool * plot :=
  if negb (Qle_bool (current_time - last_update_time st) (update_interval st))
  then (true, set_last_update_time st current_time)
  else (false, st).

Section WithUnicode.
Context `{UnicodeDB}.

(** [handle_line(line)].  [t_sample] is what [time.time()] returns on line
    429, in seconds, and [current_time] the value of [time.time() * 1000]
    computed on line 446, in milliseconds.  The result is the state
    afterwards and whether [update_plots()] was called.  An exception
    raised inside the body ends the call at that point: the [except] clause
    of line 450 only prints it. *)
Definition handle_line (line : pystr) (t_sample current_time : Q) (st : plot)
    : plot * bool :=
  let values := Parser.parse line in
  if decide (values = ∅) then (st, false)
  else
    let '(st1, ok) := append_sample values t_sample st in
    if ok then
      let '(drawn, st2) := throttle current_time st1 in (st2, drawn)
    else (st1, false).
End WithUnicode.

(** [clear_data()]; [confirmed] is the answer to the confirmation dialog.
    The redraw that follows does not touch the buffers. *)
Definition clear_data (confirmed : bool) (st : plot) : plot :=
  if confirmed then
    set_buffers st (clear <$> data_buffers st) (clear (sample_indices st))
      (clear (timestamps st))
  else st.

(** A run of appends: the samples are given by their parsed values and the
    clock reading at their arrival. *)
Definition append_all (samples : list (gmap pystr Q * Q)) (st : plot) : plot :=
  foldl (λ st s, (append_sample s.1 s.2 st).1) st samples.

(** The values of the field [f] over a run of samples, oldest first. *)
Definition column (f : pystr) (samples : list (gmap pystr Q * Q))
    : list sample_value :=
  (λ s, value_for s.1 f) <$> samples.

(** The series are aligned: every known field has a buffer and only known
    fields have one, all buffers have one bound, and every series is as long
    as the series of indices. *)
Record aligned (st : plot) : Prop := Aligned {
  aligned_nodup : NoDup (fields st);
  aligned_dom : ∀ f, f ∈ fields st ↔ is_Some (data_buffers st !! f);
  aligned_bound : maxlen (timestamps st) = maxlen (sample_indices st);
  aligned_stamps : len (timestamps st) = len (sample_indices st);
  aligned_fields : ∀ f d, data_buffers st !! f = Some d →
    maxlen d = maxlen (sample_indices st) ∧ len d = len (sample_indices st)
}.

End Plot.

(** ** Decoding the bytes of a line

    [bytes.decode(encoding="utf-8", errors=...)], following the decoder of
    CPython: a malformed sequence is the longest prefix that could still have
    started a character, and the error handler decides what becomes of it. *)

Module Codec.

Inductive error_handler : Type :=
| Strict     (* raise [UnicodeDecodeError] *)
| Ignore     (* drop the malformed bytes *)
| Replace.   (* put U+FFFD in their place *)

(** What the decoder finds at a position: a character of [n] bytes, a
    malformed sequence of [n] bytes, or a character cut short by the end of
    the data. *)
Inductive scan : Type :=
| Char (cp : N) (n : nat)
| Malformed (n : nat)
| Truncated.

Definition is_continuation (b : N) : bool := (128 <=? b) && (b <? 192).

(** One step of the decoder on the byte [b] followed by [rest]. *)
Definition scan_at (b : N) (rest : list N) : scan :=
  if b <? 128 then Char b 1
  else if b <? 194 then Malformed 1
  else if b <? 224 then
    match rest with
    | [] => Truncated
    | b2 :: _ =>
        if is_continuation b2 then Char ((b - 192) * 64 + (b2 - 128)) 2
        else Malformed 1
    end
  else if b <? 240 then
    match rest with
    | [] => Truncated
    | b2 :: rest2 =>
        if negb (is_continuation b2)
           || (if b2 <? 160 then b =? 224 else b =? 237)
        then Malformed 1
        else
          match rest2 with
          | [] => Truncated
          | b3 :: _ =>
              if is_continuation b3
              then Char ((b - 224) * 4096 + (b2 - 128) * 64 + (b3 - 128)) 3
              else Malformed 2
          end
    end
  else if b <? 245 then
    match rest with
    | [] => Truncated
    | b2 :: rest2 =>
        if negb (is_continuation b2)
           || (if b2 <? 144 then b =? 240 else b =? 244)
        then Malformed 1
        else
          match rest2 with
          | [] => Truncated
          | b3 :: rest3 =>
              if negb (is_continuation b3) then Malformed 2
              else
                match rest3 with
                | [] => Truncated
                | b4 :: _ =>
                    if is_continuation b4
                    then Char ((b - 240) * 262144 + (b2 - 128) * 4096
                               + (b3 - 128) * 64 + (b4 - 128)) 4
                    else Malformed 3
                end
          end
    end
  else Malformed 1.

(** The error handler applied to a malformed sequence, [tail] being the
    decoding of what follows it. *)
Definition on_error (h : error_handler) (tail : option pystr) : option pystr :=
  match h with
  | Strict => None
  | Ignore => tail
  | Replace => (65533 ::.) <$> tail
  end.

(** [skip] counts the bytes of the sequence just read that are still to be
    passed over. *)
Fixpoint decode_from (h : error_handler) (skip : nat) (bs : list N)
    : option pystr :=
  match bs with
  | [] => Some []
  | b :: bs' =>
      match skip with
      | S n => decode_from h n bs'
      | O =>
          match scan_at b bs' with
          | Char cp n => (cp ::.) <$> decode_from h (pred n) bs'
          | Malformed n => on_error h (decode_from h (pred n) bs')
          | Truncated => on_error h (Some [])
          end
      end
  end.

(** [bs.decode(errors=h)]; [None] stands for [UnicodeDecodeError]. *)
Definition decode (h : error_handler) (bs : list byte) : option pystr :=
  decode_from h 0 (Byte.to_N <$> bs).

End Codec.

(** ** The reader thread *)

Module SerialReader.
Import Codec.

(** The attributes of a [SerialReader].  [ser] is [None] until a port was
    opened, and [Some b] for a [serial.Serial] object whose [is_open] is
    [b]. *)
Record reader : Type := Build {
  running : bool;
  port : pystr;
  baudrate : Z;
  ser : option bool;
  max_reconnect_attempts : Z;
  reconnect_count : Z
}.

(** [SerialReader(port, baudrate, max_reconnect_attempts)] *)
Definition new (port : pystr) (baudrate max_attempts : Z) : reader :=
  Build false port baudrate None max_attempts 0.

(** The texts the thread reports through [error_occurred], by template. *)
Inductive message : Type :=
| NoPyserial                        (* "pyserial模块未安装" *)
| Reconnecting (count max : Z)      (* "连接断开，尝试重连 (count/max)..." *)
| CannotOpen (port : pystr) (e : pystr)   (* "无法打开端口 port: e" *)
| ReadError (e : pystr).            (* "串口读取错误: e" *)

(** What the thread does that others can observe, in order: the calls to
    [serial.Serial], the three signals, and the pauses. *)
Inductive event : Type :=
| SerialOpen (port : pystr) (baudrate : Z)
| ConnectionReady
| DataReceived (line : pystr)
| ErrorOccurred (m : message)
| Sleep (seconds : Q).

(** What the transport does during one pass of the loop: how
    [serial.Serial(...)] ends if the pass calls it, and what [in_waiting]
    and [readline()] do. *)
Inductive open_outcome : Type :=
| Opened
| OpenSerialException (e : pystr)
| OpenException (e : pystr).        (* any other exception *)

Inductive read_outcome : Type :=
| NothingWaiting                    (* [in_waiting] is 0 *)
| LineRead (bs : list byte)         (* [in_waiting > 0], [readline()] gives [bs] *)
| ReadSerialException (e : pystr)
| ReadException (e : pystr).        (* any other exception *)

Record transport : Type := Transport {
  opening : open_outcome;
  reading : read_outcome
}.

Definition set_ser (r : reader) (s : option bool) (count : Z) : reader :=
  Build (running r) (port r) (baudrate r) s (max_reconnect_attempts r) count.

Definition set_count (r : reader) (count : Z) : reader :=
  set_ser r (ser r) count.

Definition set_running (r : reader) (b : bool) : reader :=
  Build b (port r) (baudrate r) (ser r) (max_reconnect_attempts r)
    (reconnect_count r).

(** [not self.ser or not self.ser.is_open] *)
Definition needs_open (r : reader) : bool :=
  match ser r with
  | Some true => false
  | _ => true
  end.

(** The clause [except serial.SerialException as e] (lines 72 to 84).  The
    flag tells whether the loop goes on ([continue]) or is left ([break]). *)
Definition on_serial_exception (r : reader) (e : pystr)
    : reader * list event * bool :=
  let r := set_count r (reconnect_count r + 1) in
  if (reconnect_count r <=? max_reconnect_attempts r)%Z then
    (r, [ErrorOccurred (Reconnecting (reconnect_count r)
                          (max_reconnect_attempts r)); Sleep 1], true)
  else
    (r, [ErrorOccurred (CannotOpen (port r) e)], false).

(** The clause [except Exception as e] (lines 85 to 89). *)
Definition on_exception (r : reader) (e : pystr)
    : reader * list event * bool :=
  (r, [ErrorOccurred (ReadError e); Sleep (1 # 10)], true).

(** The text of [UnicodeDecodeError], which no run produces. *)
Definition decode_error : pystr := py "UnicodeDecodeError".

(** Lines 62 to 70, on an open port. *)
Definition read_step (r : reader) (t : read_outcome)
    : reader * list event * bool :=
  match t with
  | NothingWaiting => (r, [Sleep (1 # 100)], true)
  | LineRead bs =>
      match decode Ignore bs with
      | Some text =>
          match Text.strip text with
          | [] => (r, [], true)
          | line => (r, [DataReceived line], true)
          end
      | None => on_exception r decode_error
      end
  | ReadSerialException e => on_serial_exception r e
  | ReadException e => on_exception r e
  end.

Definition prepend (evs : list event) (x : reader * list event * bool)
    : reader * list event * bool :=
  (x.1.1, evs ++ x.1.2, x.2).

(** One pass of the body of [while self._running] (lines 55 to 89). *)
Definition iteration (r : reader) (t : transport)
    : reader * list event * bool :=
  if needs_open r then
    match opening t with
    | Opened =>
        prepend [SerialOpen (port r) (baudrate r); ConnectionReady]
          (read_step (set_ser r (Some true) 0) (reading t))
    | OpenSerialException e =>
        prepend [SerialOpen (port r) (baudrate r)] (on_serial_exception r e)
    | OpenException e =>
        prepend [SerialOpen (port r) (baudrate r)] (on_exception r e)
    end
  else read_step r (reading t).

(** [stop()], called from the thread of the window. *)
Definition stop (r : reader) : reader :=
  let r := set_running r false in
  match ser r with
  | Some true => set_ser r (Some false) (reconnect_count r)
  | _ => r
  end.

(** What happens around the thread: a pass of its loop against the transport,
    or a call of [stop()] between two passes. *)
Inductive input : Type :=
| Pass (t : transport)
| StopCalled.

(** How far a run got. *)
Inductive status : Type :=
| Looping       (* inside the loop, the inputs given so far being used up *)
| Stopped       (* the loop ended because [_running] is false *)
| Failed        (* the loop was left by the [break] of line 84 *)
| Unavailable.  (* [run] returned at line 52 *)

Record outcome : Type := Outcome {
  final : reader;
  trace : list event;
  exit : status
}.

Definition emit (evs : list event) (o : outcome) : outcome :=
  Outcome (final o) (evs ++ trace o) (exit o).

(** [while self._running: ...] *)
Fixpoint loop (r : reader) (inputs : list input) : outcome :=
  if running r then
    match inputs with
    | [] => Outcome r [] Looping
    | StopCalled :: inputs' => loop (stop r) inputs'
    | Pass t :: inputs' =>
        let '(r', evs, go) := iteration r t in
        if go : bool then emit evs (loop r' inputs') else Outcome r' evs Failed
    end
  else Outcome r [] Stopped.

(** [run()]; [has_serial] is the module flag [HAS_SERIAL]. *)
Definition run (has_serial : bool) (r : reader) (inputs : list input)
    : outcome :=
  let r := set_running r true in
  if has_serial then loop r inputs
  else Outcome r [ErrorOccurred NoPyserial] Unavailable.

(** The messages sent through [error_occurred], in order. *)
Definition status_events (evs : list event) : list message :=
  omap (λ e, match e with ErrorOccurred m => Some m | _ => None end) evs.

(** The reader the window starts when no port was chosen:
    [SerialReader(port="COM10", baudrate=115200)]. *)
Definition default_reader : reader := new (py "COM10") 115200 3.

(** A pass in which [serial.Serial] raises [SerialException]. *)
Definition open_fails : transport :=
  Transport (OpenSerialException (py "could not open port")) NothingWaiting.

(** A pass on an open port in which [in_waiting] or [readline()] raises
    [SerialException], as when the device is unplugged. *)
Definition read_fails : transport :=
  Transport Opened (ReadSerialException (py "read failed")).

(** The reader after its port was opened: [ser.is_open] holds and the
    counter is 0 (lines 57 to 60). *)
Definition connected (r : reader) : reader := set_ser r (Some true) 0.

(** The call a pass starts with when the port is to be opened. *)
Definition opening_call (r : reader) : list event :=
  if needs_open r then [SerialOpen (port r) (baudrate r)] else [].

(** The pauses taken, in seconds, in order. *)
Definition pauses (evs : list event) : list Q :=
  omap (λ e, match e with Sleep d => Some d | _ => None end) evs.

(** How many times [serial.Serial] was called. *)
Definition opens (evs : list event) : nat :=
  length (omap (λ e, match e with SerialOpen p _ => Some p | _ => None end) evs).

(** A pass that ends in the clause for [serial.SerialException] and has not
    opened the port: the call of [serial.Serial] raises it when the port is
    to be opened, [in_waiting] or [readline()] when the port is open. *)
Definition transport_error (r : reader) (t : transport) : bool :=
  if needs_open r then
    match opening t with OpenSerialException _ => true | _ => false end
  else
    match reading t with ReadSerialException _ => true | _ => false end.

(** What a pass emits for a line decoded to [text]: the trimmed text through
    [data_received], if it is not empty. *)
Definition emitted_for (text : pystr) : list event :=
  match Text.strip text with
  | [] => []
  | line => [DataReceived line]
  end.

End SerialReader.

(** ** What a pattern matches

    The words a pattern matches and the groups it captures on them, apart
    from the order in which the engine tries them. *)

Module ReSem.
Import Re.

Inductive sem : regex → pystr → list pystr → Prop :=
| sem_eps : sem Eps [] []
| sem_lit c : sem (Lit c) [c] []
| sem_rep min cls w :
    (min ≤ length w)%nat → Forall (λ c, cls c = true) w →
    sem (Rep min cls) w []
| sem_opt_some r w cs : sem r w cs → sem (Opt r) w cs
| sem_opt_none r : sem (Opt r) [] []
| sem_seq r1 r2 w1 w2 cs1 cs2 :
    sem r1 w1 cs1 → sem r2 w2 cs2 → sem (Seq r1 r2) (w1 ++ w2) (cs1 ++ cs2)
| sem_alt_l r1 r2 w cs : sem r1 w cs → sem (Alt r1 r2) w cs
| sem_alt_r r1 r2 w cs : sem r2 w cs → sem (Alt r1 r2) w cs
| sem_grp r w cs : sem r w cs → sem (Grp r) w (cs ++ [w]).

(** A pattern without a capturing group. *)
Fixpoint groupless (r : regex) : bool :=
  match r with
  | Eps | Lit _ | Rep _ _ => true
  | Opt r1 => groupless r1
  | Seq r1 r2 | Alt r1 r2 => groupless r1 && groupless r2
  | Grp _ => false
  end.

End ReSem.

(** ** Tokens

    The two groups of a match: a key and a decimal literal. *)

Module Tokens.
Import Text Parser.

Section WithUnicode.
Context `{UnicodeDB}.

(** A non-empty word over [[A-Za-z0-9]]. *)
Definition is_key (k : pystr) : Prop :=
  k ≠ [] ∧ Forall (λ c, isalnum_ascii c = true) k.

(** An optional minus sign, digits, and optionally a point and digits. *)
Definition is_number (v : pystr) : Prop :=
  ∃ sign ds frac,
    v = sign ++ ds ++ frac
    ∧ (sign = [] ∨ sign = [45])
    ∧ ds ≠ [] ∧ Forall (λ c, isdigit c = true) ds
    ∧ (frac = []
       ∨ ∃ ds', frac = 46 :: ds' ∧ ds' ≠ [] ∧ Forall (λ c, isdigit c = true) ds').

(** No decimal digit of the character database is a blank: the categories Nd
    and Zs of Unicode are disjoint. *)
Definition digits_are_not_blank : Prop :=
  ∀ c, is_Some (unicode_decimal c) → isspace c = false.

End WithUnicode.
End Tokens.

(** ** A session of the window

    What reaches the buffers while the window runs: lines from the reader,
    answers to the dialog of [clear_data], and the start of an acquisition,
    which empties the buffers with the same three statements as [clear_data]
    (lines 347 to 350 of [toggle_acquisition]). *)

Module Session.
Import Deque Plot.

Inductive op : Type :=
| Received (line : pystr) (t_sample current_time : Q)  (* [handle_line(line)] *)
| ClearPressed (confirmed : bool)                      (* [clear_data()] *)
| AcquisitionStarted.                                  (* lines 347 to 350 *)

Section WithUnicode.
Context `{UnicodeDB}.

Definition step (st : plot) (o : op) : plot :=
  match o with
  | Received line t1 t2 => (handle_line line t1 t2 st).1
  | ClearPressed confirmed => clear_data confirmed st
  | AcquisitionStarted => clear_data true st
  end.

Definition exec (ops : list op) (st : plot) : plot := foldl step st ops.

End WithUnicode.

(** What holds of the buffers at every moment of a session: the series are
    aligned, bounded by [max_samples], and the indices are consecutive. *)
Record steady (st : plot) : Prop := Steady {
  steady_aligned : aligned st;
  steady_fields : fields st = known_fields;
  steady_bound : maxlen (sample_indices st) = max_samples;
  steady_len : (len (sample_indices st) ≤ max_samples)%nat;
  steady_run : ∃ a, (0 ≤ a)%Z
      ∧ items (sample_indices st) = seqZ a (Z.of_nat (len (sample_indices st)))
}.

(** The times at which the gate lets a redraw through, when it is asked at
    the times [times] in turn. *)
Fixpoint redraw_times (times : list Q) (st : plot) : list Q :=
  match times with
  | [] => []
  | t :: times' =>
      let '(drawn, st') := throttle t st in
      if drawn : bool then t :: redraw_times times' st'
      else redraw_times times' st'
  end.

End Session.

(** Two states of the window with the same buffers (they may differ in the
    time of the last redraw). *)

Module Series.
Import Plot.

Definition same_series (a b : plot) : Prop :=
  fields a = fields b ∧ data_buffers a = data_buffers b
  ∧ sample_indices a = sample_indices b ∧ timestamps a = timestamps b.

End Series.

(** ** Counting what the transport does *)

Module Link.
Import SerialReader.

(** The passes, among [ts], in which reading raises [SerialException]. *)
Definition read_failures (ts : list transport) : nat :=
  length (omap (λ t, match reading t with
                     | ReadSerialException e => Some e
                     | _ => None
                     end) ts).

End Link.

(** ** The controls of the window: pages and check boxes *)

Module Window.

(** [l[i]] for a Python list: a negative index counts from the end, and
    [None] stands for [IndexError]. *)
Definition getitem {A} (l : list A) (i : Z) : option A :=
  if (0 <=? i)%Z then l !! Z.to_nat i
  else if (- Z.of_nat (length l) <=? i)%Z
       then l !! Z.to_nat (Z.of_nat (length l) + i)
       else None.

(** [self.page_groups]: the name of a page and the fields drawn on it. *)
Definition page_groups : list (pystr * list pystr) :=
  [ ([36317; 31163; 21644; 36136; 37327; 22240; 25968], [py "D"; py "fom"]);
    ([30456; 20301; 24046], [py "PD01"; py "PD02"; py "PD12"]);
    ([35282; 24230], [py "azimuth"; py "elevation"]) ].

(** The page shown, the text of [page_label], and whether [prev_button] and
    [next_button] are enabled. *)
Record pager : Type := Pager {
  current_page : Z;
  page_label : pystr;
  prev_enabled : bool;
  next_enabled : bool
}.

(** Lines 236 to 246 of [__init__]. *)
Definition init_pager : pager :=
  Pager 0 (default [] (fst <$> getitem page_groups 0)) false
    (bool_decide (1 < length page_groups)%nat).

(** [update_page_display()], for the page number [p]; [None] stands for the
    [IndexError] of [self.page_groups[self.current_page]]. *)
Definition update_page_display (p : Z) : option pager :=
  match getitem page_groups p with
  | Some (name, _) =>
      Some (Pager p name (0 <? p)%Z (p <? Z.of_nat (length page_groups) - 1)%Z)
  | None => None
  end.

(** What a click leaves when [update_page_display] raises: the page number is
    changed already, the label and the buttons are not. *)
Definition turned (pg : pager) (p : Z) : pager * bool :=
  match update_page_display p with
  | Some pg' => (pg', true)
  | None => (Pager p (page_label pg) (prev_enabled pg) (next_enabled pg), false)
  end.

(** [prev_page()]; the flag tells that no exception was raised. *)
Definition prev_page (pg : pager) : pager * bool :=
  if (0 <? current_page pg)%Z then turned pg (current_page pg - 1)
  else (pg, true).

(** [next_page()] *)
Definition next_page (pg : pager) : pager * bool :=
  if (current_page pg <? Z.of_nat (length page_groups) - 1)%Z
  then turned pg (current_page pg + 1)
  else (pg, true).

Inductive click : Type := Prev | Next.

(** A run of clicks on the two buttons: the pager afterwards, and whether
    every click went without an exception. *)
Fixpoint browse (clicks : list click) (pg : pager) : pager * bool :=
  match clicks with
  | [] => (pg, true)
  | c :: clicks' =>
      let '(pg', ok) := match c with
                        | Prev => prev_page pg
                        | Next => next_page pg
                        end in
      let '(pg'', ok') := browse clicks' pg' in
      (pg'', ok && ok')
  end.

(** The state of the check boxes, by field: [cb.isChecked()]. *)
Definition init_checkboxes : gmap pystr bool :=
  list_to_map ((λ f, (f, bool_decide (f ∈ [py "D"; py "azimuth"; py "elevation"])))
               <$> Plot.known_fields).

(** [any(not cb.isChecked() for cb in self.checkboxes.values())] *)
Definition any_unchecked (cbs : gmap pystr bool) : bool :=
  bool_decide (map_Exists (λ _ b, b = false) cbs).

(** [select_all()] *)
Definition select_all (cbs : gmap pystr bool) : gmap pystr bool :=
  (λ _, any_unchecked cbs) <$> cbs.

End Window.

(** ** What [update_plots] looks up and draws

    The part of [update_plots] that does not depend on float arithmetic:
    which fields get a subplot, and for each the points drawn, the index of
    its colour and the limits of its x axis, which are integers.  The limits
    of the y axis (lines 524 to 529) are computed in binary64 from the stored
    numbers and handed to [set_ylim], which raises when they are not finite;
    they are not part of this model, and neither are titles, labels, the
    legend and the grid.  Nothing here says that [update_plots] as a whole
    returns without the warning box. *)

Module Figure.
Import Deque Plot Window.

(** Lines 458 to 465: the fields of the page whose box is checked, in the
    order of the page; [None] stands for the [IndexError] of
    [self.page_groups[self.current_page]].  An empty list leads to the chart
    with the notice that no parameter is selected. *)
Definition current_fields (cbs : gmap pystr bool) (page : Z)
    : option (list pystr) :=
  match getitem page_groups page with
  | None => None
  | Some (_, group_fields) =>
      Some (filter (λ f, cbs !! f = Some true) group_fields)
  end.

(** [[(x, y) for x, y in zip(x_data, y_data) if not np.isnan(y)]] *)
Definition valid_data (xs : list Z) (ys : list sample_value) : list (Z * Q) :=
  omap (λ p, match p.2 with Value v => Some (p.1, v) | NaN => None end)
    (zip xs ys).

(** [self.fields.index(f)]; [None] stands for [ValueError]. *)
Definition index_of (f : pystr) (fs : list pystr) : option nat :=
  fst <$> list_find (λ g, g = f) fs.

(** What a subplot is given up to line 521: the points of [ax.plot], the
    index of the colour, and the limits of [ax.set_xlim] ([None] where the
    call is not made). *)
Record curve : Type := Curve {
  cv_points : list (Z * Q);
  cv_colour : option nat;
  cv_xlim : option (Z * Z)
}.

(** The body of [for i, f in enumerate(current_fields, 1)] for the field
    [f], from line 481 to line 521; [None] stands for an exception (the
    [KeyError] of [self.data_buffers[f]] or the [ValueError] of
    [self.fields.index(f)]). *)
Definition curve_of (st : plot) (f : pystr) : option curve :=
  match data_buffers st !! f with
  | None => None
  | Some d =>
      let x_data := items (sample_indices st) in
      let y_data := items d in
      let min_length := (length x_data `min` length y_data)%nat in
      let x_data := take min_length x_data in
      let y_data := take min_length y_data in
      match x_data, y_data with
      | _ :: _, _ :: _ =>
          let valid := valid_data x_data y_data in
          match last valid with
          | None => Some (Curve [] None None)
          | Some (last_x, _) =>
              match index_of f (fields st) with
              | None => None
              | Some i =>
                  Some (Curve valid (Some (i mod 7)%nat)
                          (Some (Z.max 0 (last_x - Z.of_nat max_samples),
                                 (last_x + 10)%Z)))
              end
          end
      | _, _ => Some (Curve [] None None)
      end
  end.

End Figure.

(** ** What [save_data] writes *)

Module Csv.
Import Deque Plot.

(** A cell of the table, before it is turned into text: a fixed word of the
    header or a field name, [str(index)], [str(timestamp)], the timestamp
    formatted as a date, [str(value)], or the empty string. *)
Inductive cell : Type :=
| Word (w : pystr)
| IndexCell (i : Z)
| StampCell (t : Q)
| DateCell (t : Q)
| NumberCell (v : Q)
| Blank.

(** How [save_data] ends: with the warning that there is nothing to save,
    with the dialog dismissed, with the rows written, or with an exception
    after the rows given were written. *)
Inductive saved : Type :=
| NoData
| Cancelled
| Written (rows : list (list cell))
| SaveFailed (rows : list (list cell)).

(** [[f for f in self.fields if self.checkboxes[f].isChecked()]]; [None]
    stands for the [KeyError] of [self.checkboxes[f]]. *)
Fixpoint checked_fields (fs : list pystr) (cbs : gmap pystr bool)
    : option (list pystr) :=
  match fs with
  | [] => Some []
  | f :: fs' =>
      match cbs !! f with
      | None => None
      | Some b =>
          match checked_fields fs' cbs with
          | None => None
          | Some rest => Some (if b : bool then f :: rest else rest)
          end
      end
  end.

(** The cell for entry [i] of a buffer: the number, and the empty string for
    NaN or past the end of the buffer. *)
Definition cell_of_value (o : option sample_value) : cell :=
  match o with
  | Some (Value v) => NumberCell v
  | _ => Blank
  end.

(** Lines 584 to 587; [None] stands for the [KeyError] of
    [self.data_buffers[field]]. *)
Definition field_cell (st : plot) (i : nat) (f : pystr) : option cell :=
  match data_buffers st !! f with
  | None => None
  | Some d => Some (cell_of_value (items d !! i))
  end.

(** Lines 573 to 580. *)
Definition stamp_cells (st : plot) (i : nat) : list cell :=
  match items (timestamps st) !! i with
  | Some t => [StampCell t; DateCell t]
  | None => [Blank; Blank]
  end.

(** The row of sample [i], whose index is [x] (lines 570 to 587). *)
Definition row (st : plot) (selected : list pystr) (i : nat) (x : Z)
    : option (list cell) :=
  match mapM (field_cell st i) selected with
  | None => None
  | Some cells => Some (IndexCell x :: stamp_cells st i ++ cells)
  end.

(** [for i in range(len(indices))]: the rows written, and whether the loop
    ran to its end. *)
Fixpoint write_rows (st : plot) (selected : list pystr) (i : nat)
    (indices : list Z) : list (list cell) * bool :=
  match indices with
  | [] => ([], true)
  | x :: rest =>
      match row st selected i x with
      | None => ([], false)
      | Some r =>
          let '(rs, ok) := write_rows st selected (S i) rest in (r :: rs, ok)
      end
  end.

Definition fixed_headers : list pystr :=
  [py "SampleIndex"; py "Timestamp"; py "DateTime"].

(** [save_data()]: [filename] is what the file dialog returns (empty when it
    is dismissed), [can_open] whether [open(filename, 'w')] succeeds. *)
Definition save_data (st : plot) (cbs : gmap pystr bool) (filename : pystr)
    (can_open : bool) : saved :=
  match items (sample_indices st), filename with
  | [], _ => NoData
  | _, [] => Cancelled
  | indices, _ =>
      if can_open then
        match checked_fields (fields st) cbs with
        | None => SaveFailed []
        | Some selected =>
            let header := Word <$> (fixed_headers ++ selected) in
            let '(rows, ok) := write_rows st selected 0 indices in
            if ok : bool then Written (header :: rows)
            else SaveFailed (header :: rows)
        end
      else SaveFailed []
  end.

End Csv.

(** * Properties *)

(** ** Bounded buffers *)

Module DequeFacts.
Import Deque.

Lemma maxlen_append {A} (d : deque A) x : maxlen (append d x) = maxlen d.
Proof. reflexivity. Qed.

Lemma len_append {A} (d : deque A) x :
  len (append d x) = if (maxlen d <? S (len d))%nat then len d else S (len d).
Proof.
  unfold len, append; simpl. rewrite length_app, Nat.add_1_r.
  destruct (maxlen d <? S (length (items d)))%nat.
  - rewrite length_drop, length_app. simpl. lia.
  - rewrite length_app. simpl. lia.
Qed.

(** A deque that holds the last [maxlen] items of [full] holds the last
    [maxlen] items of [full ++ [x]] after [x] is appended. *)
Lemma append_window {A} (d : deque A) (full : list A) x :
  items d = drop (length full - maxlen d) full →
  items (append d x) = drop (length (full ++ [x]) - maxlen d) (full ++ [x]).
Proof.
  intros Hd. unfold append; simpl. rewrite Hd.
  set (k := (length full - maxlen d)%nat).
  assert (Hk : (k ≤ length full)%nat) by lia.
  rewrite <- (drop_app_le full [x] k Hk).
  rewrite length_drop, !length_app. simpl.
  destruct (Nat.ltb_spec (maxlen d) (length full + 1 - k)).
  - rewrite drop_drop. f_equal. lia.
  - replace (length full + 1 - maxlen d)%nat with k by lia. reflexivity.
Qed.

Lemma append_history {A} (d : deque A) (full : list A) x (cap n : nat) :
  maxlen d = cap → length full = n →
  items d = drop (n - cap) full →
  items (append d x) = drop (S n - cap) (full ++ [x]).
Proof.
  intros <- <- Hd. rewrite (append_window d full x Hd).
  rewrite length_app. simpl. by rewrite Nat.add_1_r.
Qed.

Lemma foldl_append_window {A} (n : nat) (xs : list A) :
  items (foldl append (new n) xs) = drop (length xs - n) xs
  ∧ maxlen (foldl append (new n) xs) = n.
Proof.
  induction xs as [|x xs IH] using rev_ind; [done|].
  rewrite foldl_app. cbn [foldl]. destruct IH as [IH1 IH2]. split; [|done].
  pose proof (append_window (foldl append (new n) xs) xs x) as Hw.
  rewrite IH2 in Hw. auto.
Qed.

End DequeFacts.

(** ** The rolling buffers *)

Module PlotFacts.
Import Deque Plot DequeFacts.

Lemma new_buffers_lookup (fs : list pystr) (n : nat) (f : pystr) :
  new_buffers fs n !! f = if decide (f ∈ fs) then Some (new n) else None.
Proof.
  unfold new_buffers.
  induction fs as [|g fs IH] using rev_ind.
  - cbn [foldl]. rewrite lookup_empty. by rewrite decide_False by set_solver.
  - rewrite foldl_app. cbn [foldl].
    destruct (decide (g = f)) as [->|Hne].
    + rewrite lookup_insert_eq. by rewrite decide_True by set_solver.
    + rewrite lookup_insert_ne by done. rewrite IH.
      destruct (decide (f ∈ fs)) as [Hin|Hin].
      * rewrite decide_True; [done|]. apply elem_of_app. by left.
      * rewrite decide_False; [done|].
        intros [?|?%list_elem_of_singleton]%elem_of_app; congruence.
Qed.

(** The loop over the fields appends to the buffer of every field once and
    raises nothing, when the fields are distinct and each has a buffer. *)
Lemma fill_fields_spec (fs : list pystr) (values : gmap pystr Q)
    (bufs : gmap pystr (deque sample_value)) :
  NoDup fs →
  (∀ f, f ∈ fs → is_Some (bufs !! f)) →
  ∃ bufs', fill_fields fs values bufs = (bufs', true)
    ∧ ∀ f, bufs' !! f =
        if decide (f ∈ fs)
        then (λ d, append d (value_for values f)) <$> bufs !! f
        else bufs !! f.
Proof.
  revert bufs. induction fs as [|g fs IH]; intros bufs Hnd Hdom.
  - exists bufs. split; [done|]. intros f. case_decide; [set_solver|done].
  - apply NoDup_cons in Hnd as [Hg Hnd].
    destruct (Hdom g) as [d Hd]; [set_solver|].
    cbn [fill_fields]. rewrite Hd.
    destruct (IH (<[g := append d (value_for values g)]> bufs) Hnd)
      as (bufs' & Hfill & Hlook).
    { intros f Hf. destruct (decide (g = f)) as [->|Hne].
      - rewrite lookup_insert_eq. eauto.
      - rewrite lookup_insert_ne by done. apply Hdom. set_solver. }
    exists bufs'. split; [done|]. intros f. rewrite Hlook.
    destruct (decide (g = f)) as [->|Hne].
    + rewrite decide_False by done. rewrite lookup_insert_eq.
      rewrite decide_True by set_solver. by rewrite Hd.
    + rewrite lookup_insert_ne by done.
      destruct (decide (f ∈ fs)) as [Hin|Hin].
      * rewrite decide_True; [done|]. by apply elem_of_cons; right.
      * rewrite decide_False; [done|].
        intros [?|?]%elem_of_cons; congruence.
Qed.

Lemma init_aligned : aligned init.
Proof.
  split; simpl.
  - apply (bool_decide_unpack (NoDup known_fields)). by vm_compute.
  - intros f. rewrite new_buffers_lookup.
    destruct (decide (f ∈ known_fields)); split; eauto; try done.
  - done.
  - done.
  - intros f d. rewrite new_buffers_lookup. case_decide; [|done].
    intros [= <-]. done.
Qed.

(** Appending a sample to aligned series raises nothing and leaves them
    aligned. *)
Lemma append_sample_aligned (values : gmap pystr Q) (t : Q) (st : plot) :
  aligned st →
  (append_sample values t st).2 = true ∧ aligned (append_sample values t st).1.
Proof.
  intros [Hnd Hdom Hb Hl Hf]. unfold append_sample.
  destruct (fill_fields_spec (fields st) values (data_buffers st) Hnd)
    as (bufs' & -> & Hlook).
  { intros f. apply Hdom. }
  split; [done|]. split; simpl.
  - done.
  - intros f. rewrite Hlook. case_decide as Hin.
    + rewrite fmap_is_Some. split; [by intros _; apply Hdom|done].
    + apply Hdom.
  - done.
  - rewrite !len_append, Hb, Hl. done.
  - intros f d. rewrite Hlook. case_decide as Hin.
    + destruct (data_buffers st !! f) as [d0|] eqn:Hd0; [|done].
      intros [= <-]. destruct (Hf f d0 Hd0) as [Hm Hlen].
      rewrite !len_append, !maxlen_append, Hm, Hlen. done.
    + intros Hd. destruct Hin. apply Hdom. eauto.
Qed.

Lemma throttle_buffers (now : Q) (st : plot) :
  let st' := (throttle now st).2 in
  fields st' = fields st ∧ data_buffers st' = data_buffers st
  ∧ sample_indices st' = sample_indices st ∧ timestamps st' = timestamps st.
Proof. unfold throttle. by destruct (negb _). Qed.

Lemma throttle_aligned (now : Q) (st : plot) :
  aligned st → aligned (throttle now st).2.
Proof.
  intros [Hnd Hdom Hb Hl Hf].
  destruct (throttle_buffers now st) as (E1 & E2 & E3 & E4).
  split; rewrite ?E1, ?E2, ?E3, ?E4; done.
Qed.

Lemma handle_line_aligned `{UnicodeDB} (line : pystr) (t1 t2 : Q) (st : plot) :
  aligned st → aligned (handle_line line t1 t2 st).1.
Proof.
  intros Hst. unfold handle_line. case_decide; [done|].
  destruct (append_sample_aligned (Parser.parse line) t1 st Hst) as [Hok Hal].
  destruct (append_sample _ _ _) as [st1 ok]. simpl in *. subst ok.
  pose proof (throttle_aligned t2 st1 Hal) as Ht.
  by destruct (throttle _ _).
Qed.

(** On aligned series a line with parsed values is one appended sample: the
    gate that follows leaves the buffers alone. *)
Lemma handle_line_appends `{UnicodeDB} (line : pystr) (t1 t2 : Q) (st : plot) :
  aligned st → Parser.parse line ≠ ∅ →
  data_buffers (handle_line line t1 t2 st).1
    = data_buffers (append_sample (Parser.parse line) t1 st).1
  ∧ sample_indices (handle_line line t1 t2 st).1
    = sample_indices (append_sample (Parser.parse line) t1 st).1
  ∧ timestamps (handle_line line t1 t2 st).1
    = timestamps (append_sample (Parser.parse line) t1 st).1.
Proof.
  intros Hst Hne. unfold handle_line. rewrite decide_False by done.
  destruct (append_sample_aligned (Parser.parse line) t1 st Hst) as [Hok _].
  destruct (append_sample _ _ _) as [st1 ok]. cbn in Hok. subst ok.
  destruct (throttle_buffers t2 st1) as (_ & E2 & E3 & E4).
  destruct (throttle _ _). done.
Qed.

Lemma clear_data_aligned (confirmed : bool) (st : plot) :
  aligned st → aligned (clear_data confirmed st).
Proof.
  intros [Hnd Hdom Hb Hl Hf]. destruct confirmed; [|done].
  split; simpl; try done.
  - intros f. rewrite lookup_fmap, fmap_is_Some. apply Hdom.
  - intros f d. rewrite lookup_fmap.
    destruct (data_buffers st !! f) as [d0|] eqn:Hd0; [|done].
    intros [= <-]. destruct (Hf f d0 Hd0) as [Hm _]. done.
Qed.

Lemma last_drop {A} (l : list A) (k : nat) :
  (k < length l)%nat → last (drop k l) = last l.
Proof.
  intros Hk. rewrite !last_lookup, lookup_drop, length_drop. f_equal. lia.
Qed.

Lemma last_append {A} (d : deque A) (x : A) :
  maxlen d ≠ 0%nat → last (items (append d x)) = Some x.
Proof.
  intros Hm. unfold append; simpl.
  destruct (Nat.ltb_spec (maxlen d) (length (items d ++ [x])));
    [|apply last_snoc].
  rewrite last_drop; [apply last_snoc|].
  rewrite length_app in *. simpl in *. lia.
Qed.

Lemma next_after_window (n cap : nat) :
  cap ≠ 0%nat →
  match last (drop (n - cap) (Z.of_nat <$> seq 0 n)) with
  | Some i => (i + 1)%Z
  | None => 0%Z
  end = Z.of_nat n.
Proof.
  intros Hcap. destruct n as [|n]; [done|].
  rewrite last_drop by (rewrite length_fmap, length_seq; lia).
  rewrite fmap_last, seq_S, last_snoc. simpl. lia.
Qed.

Lemma append_all_snoc samples s (st : plot) :
  append_all (samples ++ [s]) st
  = (append_sample s.1 s.2 (append_all samples st)).1.
Proof. unfold append_all. by rewrite foldl_app. Qed.

(** What the series hold after a run of appends on the initial state: the
    last [max_samples] items of the whole history, the sample at position
    [i] of the history having index [i]. *)
Lemma append_all_init (samples : list (gmap pystr Q * Q)) :
  let st := append_all samples init in
  let k := (length samples - max_samples)%nat in
  aligned st ∧ fields st = known_fields
  ∧ maxlen (sample_indices st) = max_samples
  ∧ items (sample_indices st) = drop k (Z.of_nat <$> seq 0 (length samples))
  ∧ items (timestamps st) = drop k samples.*2
  ∧ ∀ f d, data_buffers st !! f = Some d → items d = drop k (column f samples).
Proof.
  induction samples as [|s samples IH] using rev_ind.
  - cbn zeta. change (append_all [] init) with init.
    split_and!; try done; [apply init_aligned|].
    intros f d. simpl. rewrite new_buffers_lookup.
    destruct (decide _); [|done]. by intros [= <-].
  - cbn zeta in *. rewrite append_all_snoc.
    set (st := append_all samples init) in *.
    destruct IH as (Hal & Hfs & Hcap & Hidx & Hts & Hcols).
    pose proof Hal as [Hnd Hdom Hb Hl Hf].
    unfold append_sample.
    destruct (fill_fields_spec (fields st) s.1 (data_buffers st) Hnd)
      as (bufs' & Hfill & Hlook). { intros f. apply Hdom. }
    pose proof (append_sample_aligned s.1 s.2 st Hal) as [_ Hal'].
    unfold append_sample in Hal'. rewrite Hfill in *. cbn in Hal' |- *.
    assert (Hnext : next_index st = Z.of_nat (length samples)).
    { unfold next_index. rewrite Hidx. by apply next_after_window. }
    replace (length (samples ++ [s])) with (S (length samples))
      by (rewrite length_app; simpl; lia).
    split_and!; try done.
    + rewrite Hnext, seq_S, fmap_app. cbn.
      apply append_history; [done| |done].
      by rewrite length_fmap, length_seq.
    + rewrite fmap_app. cbn.
      apply append_history; [congruence| |done]. by rewrite length_fmap.
    + intros f d. rewrite Hlook. unfold column. rewrite fmap_app. cbn.
      destruct (decide _) as [Hin|Hin].
      * destruct (data_buffers st !! f) as [d0|] eqn:Hd0; [|done].
        intros [= <-]. destruct (Hf f d0 Hd0) as [Hm _].
        apply append_history; [congruence| |by apply Hcols].
        by rewrite length_fmap.
      * intros Hd. destruct Hin. apply Hdom. eauto.
Qed.

(** C2.  After more than [max_samples] (500) appends on the initial state,
    every series holds exactly [max_samples] entries: the samples appended
    last, oldest first, their indices running upwards without a gap; the
    older samples are gone. *)
Theorem rolling_window_keeps_latest (samples : list (gmap pystr Q * Q)) :
  (max_samples < length samples)%nat →
  let st := append_all samples init in
  let k := (length samples - max_samples)%nat in
  len (sample_indices st) = max_samples
  ∧ len (timestamps st) = max_samples
  ∧ items (sample_indices st) = Z.of_nat <$> seq k max_samples
  ∧ items (timestamps st) = drop k samples.*2
  ∧ ∀ f, f ∈ known_fields →
      ∃ d, data_buffers st !! f = Some d ∧ len d = max_samples
           ∧ items d = drop k (column f samples).
Proof.
  intros Hlen st k.
  destruct (append_all_init samples)
    as (Hal & Hfs & Hcap & Hidx & Hts & Hcols).
  fold st in Hal, Hfs, Hcap, Hidx, Hts, Hcols. fold k in Hidx, Hts, Hcols.
  destruct Hal as [Hnd Hdom Hb Hl Hf].
  assert (Hi : len (sample_indices st) = max_samples).
  { unfold len. rewrite Hidx, length_drop, length_fmap, length_seq. lia. }
  split_and!; try done.
  - congruence.
  - rewrite Hidx, <- fmap_drop, drop_seq. do 2 f_equal. lia.
  - intros f Hin. rewrite <- Hfs in Hin. apply Hdom in Hin as [d Hd].
    exists d. destruct (Hf f d Hd) as [_ Hld].
    split_and!; [done|congruence|by apply Hcols].
Qed.

Lemma rolling_window_keeps_latest_witness :
  (max_samples < length (replicate 501 (({[ py "D" := 1%Q ]} : gmap pystr Q), 0%Q)))%nat
  ∧ items (sample_indices
      (append_all (replicate 501 ({[ py "D" := 1%Q ]}, 0%Q)) init))
    = Z.of_nat <$> seq 1 max_samples.
Proof.
  assert (H : (max_samples
               < length (replicate 501 (({[ py "D" := 1%Q ]} : gmap pystr Q), 0%Q)))%nat)
    by (rewrite length_replicate; unfold max_samples; lia).
  split; [exact H|].
  exact (proj1 (proj2 (proj2 (rolling_window_keeps_latest _ H)))).
Defined.

(** C3.  The index given to an appended sample is the index of the sample
    before it plus one, and 0 when the store is empty; so the sample that
    follows a confirmed [clear_data] has index 0. *)
Theorem appended_index (values : gmap pystr Q) (t : Q) (st : plot) :
  maxlen (sample_indices st) ≠ 0%nat →
  last (items (sample_indices (append_sample values t st).1))
  = Some (match last (items (sample_indices st)) with
          | Some i => (i + 1)%Z
          | None => 0%Z
          end)
  ∧ last (items (sample_indices
        (append_sample values t (clear_data true st)).1)) = Some 0%Z.
Proof.
  intros Hm. unfold append_sample. split.
  - destruct (fill_fields _ _ _). cbn. by rewrite last_append.
  - destruct (fill_fields _ _ _). cbn. by rewrite last_append.
Qed.

Lemma appended_index_witness :
  maxlen (sample_indices init) ≠ 0%nat
  ∧ last (items (sample_indices
      (append_sample {[ py "D" := 1%Q ]} 0 (clear_data true init)).1))
    = Some 0%Z.
Proof.
  assert (H : maxlen (sample_indices init) ≠ 0%nat) by (vm_compute; lia).
  split; [exact H|].
  exact (proj2 (appended_index {[ py "D" := 1%Q ]} 0 init H)).
Defined.

(** C4.  The series stay aligned: from a state in which every known field has
    a buffer and all series have one length, every received line, every
    appended sample and every [clear_data] lead to such a state again. *)
Theorem series_stay_aligned `{UnicodeDB} (st : plot) :
  aligned st →
  (∀ line t1 t2, aligned (handle_line line t1 t2 st).1)
  ∧ (∀ values t, aligned (append_sample values t st).1)
  ∧ (∀ confirmed, aligned (clear_data confirmed st)).
Proof.
  intros Hst. split_and!.
  - intros. by apply handle_line_aligned.
  - intros. by apply append_sample_aligned.
  - intros. by apply clear_data_aligned.
Qed.

Lemma series_stay_aligned_witness :
  aligned init
  ∧ aligned (@handle_line ascii_digits_only (py "D:12.5") 1 1 init).1.
Proof.
  split; [apply init_aligned|].
  exact (proj1 (@series_stay_aligned ascii_digits_only init init_aligned)
           (py "D:12.5") 1%Q 1%Q).
Defined.

End PlotFacts.

(** ** The line parser *)

Module ParserFacts.
Import Text Re Parser.

Lemma lstrip_blank (s : pystr) : forallb isspace s = true → lstrip s = [].
Proof.
  induction s as [|c s IH]; [done|]. simpl.
  intros [Hc Hs]%andb_prop. rewrite Hc. auto.
Qed.

Lemma strip_blank (s : pystr) : forallb isspace s = true → strip s = [].
Proof. intros Hs. unfold strip. by rewrite lstrip_blank. Qed.

Section WithUnicode.
Context `{UnicodeDB}.

Lemma try_patterns_winning (ps : list regex) (line : pystr) :
  try_patterns ps line = values_of (winning_matches ps line).
Proof.
  induction ps as [|p ps IH]; [done|]. simpl.
  by destruct (findall p line).
Qed.

Lemma winning_matches_none (ps : list regex) (line : pystr) :
  Forall (λ p, findall p line = []) ps → winning_matches ps line = [].
Proof.
  induction 1 as [|p ps Hp _ IH]; [done|]. simpl. by rewrite Hp.
Qed.

(** The patterns before the first one that matches are passed over, and
    the patterns after it are not consulted. *)
Lemma winning_matches_first (ps1 ps2 : list regex) (p : regex) (line : pystr) :
  Forall (λ q, findall q line = []) ps1 →
  findall p line ≠ [] →
  winning_matches (ps1 ++ p :: ps2) line = findall p line.
Proof.
  induction 1 as [|q ps1 Hq _ IH]; intros Hp; simpl.
  - by destruct (findall p line).
  - rewrite Hq. auto.
Qed.

Lemma findall_patterns_nil (p : regex) : p ∈ patterns → findall p [] = [].
Proof.
  unfold patterns. rewrite !elem_of_cons, elem_of_nil.
  intros [->|[->|[->|[->|[]]]]]; reflexivity.
Qed.

Lemma parse_winning (line : pystr) :
  parse line = values_of (winning_matches patterns (strip line)).
Proof.
  unfold parse. rewrite <- try_patterns_winning.
  destruct (strip line) eqn:E; [|done]. reflexivity.
Qed.

(** The value a key has after the loop over the matches is the one of its
    last match. *)
Lemma values_of_last (ms1 ms2 : list (pystr * pystr)) (k v : pystr) (x : Q) :
  py_float v = Some x →
  Forall (λ kv, strip kv.1 ≠ strip k) ms2 →
  values_of (ms1 ++ (k, v) :: ms2) !! strip k = Some x.
Proof.
  intros Hv Hms2. unfold values_of. rewrite foldl_app. cbn [foldl].
  generalize (foldl store_match ∅ ms1). intros m.
  assert (Hk : store_match m (k, v) !! strip k = Some x).
  { unfold store_match. cbn. rewrite Hv. apply lookup_insert_eq. }
  revert Hk. generalize (store_match m (k, v)). clear m.
  induction Hms2 as [|kv ms2 Hne _ IH]; intros m Hm; [done|].
  cbn [foldl]. apply IH. unfold store_match.
  destruct (py_float kv.2); [|done]. by rewrite lookup_insert_ne.
Qed.

(** C5.  The lines [D:12.5], [D=12.5], [D:12.5cm] and [D=12.5cm] are each
    parsed to the mapping of [D] to 12.5, and each of the four patterns
    reads that one token from the line written in its own form: the unit
    is not part of the value. *)
Theorem parse_four_forms :
  let expected : gmap pystr Q := {[ py "D" := (25 # 2)%Q ]} in
  (parse (py "D:12.5") = expected ∧ parse (py "D=12.5") = expected
   ∧ parse (py "D:12.5cm") = expected ∧ parse (py "D=12.5cm") = expected)
  ∧ findall pattern_colon (py "D:12.5") = [(py "D", py "12.5")]
  ∧ findall pattern_equals (py "D=12.5") = [(py "D", py "12.5")]
  ∧ findall pattern_colon_unit (py "D:12.5cm") = [(py "D", py "12.5")]
  ∧ findall pattern_equals_unit (py "D=12.5cm") = [(py "D", py "12.5")]
  ∧ values_of [(py "D", py "12.5")] = expected.
Proof. cbn zeta. split_and!; by vm_compute. Qed.

(** C6.  The patterns are tried in the order of the list, and the values
    come from the matches of the first pattern that has a match, whatever
    the later patterns would match.  So [D:12.5 fom=3], whose tokens are
    written in two forms, gives [D] alone, and the lines whose two tokens
    share a form give both. *)
Theorem first_matching_grammar_wins
    (line : pystr) (ps1 ps2 : list regex) (p : regex) :
  patterns = ps1 ++ p :: ps2 →
  Forall (λ q, findall q (strip line) = []) ps1 →
  findall p (strip line) ≠ [] →
  parse line = values_of (findall p (strip line))
  ∧ parse (py "D:12.5 fom=3") = {[ py "D" := (25 # 2)%Q ]}
  ∧ parse (py "D:12.5 fom:3") = {[ py "D" := (25 # 2)%Q; py "fom" := 3%Q ]}
  ∧ parse (py "D=12.5 fom=3") = {[ py "D" := (25 # 2)%Q; py "fom" := 3%Q ]}.
Proof.
  intros Hps Hps1 Hp. split; [|split_and!; by vm_compute].
  rewrite parse_winning, Hps. f_equal. by apply winning_matches_first.
Qed.

(** C7.  A line that is blank, or on which no pattern has a match, is parsed
    to the empty mapping, and [handle_line] leaves the buffers as they are:
    no sample is made from it.  ([parse] is a function on all lines; the one
    exception its body can meet, the [ValueError] of [float], is handled in
    [store_match].) *)
Theorem unparsable_line_is_skipped
    (line : pystr) (t1 t2 : Q) (st : Plot.plot) :
  forallb isspace line = true
  ∨ Forall (λ p, findall p (strip line) = []) patterns →
  parse line = ∅ ∧ Plot.handle_line line t1 t2 st = (st, false).
Proof.
  intros Hline.
  assert (Hparse : parse line = ∅).
  { destruct Hline as [Hb|Hno].
    - unfold parse. by rewrite strip_blank.
    - rewrite parse_winning. by rewrite winning_matches_none. }
  split; [done|]. unfold Plot.handle_line. by rewrite decide_True.
Qed.

(** C10.  When the pattern that wins matches a key several times, the key
    is mapped to the value of its last match. *)
Theorem last_occurrence_wins
    (line : pystr) (ms1 ms2 : list (pystr * pystr)) (k v : pystr) (x : Q) :
  winning_matches patterns (strip line) = ms1 ++ (k, v) :: ms2 →
  Forall (λ kv, strip kv.1 ≠ strip k) ms2 →
  py_float v = Some x →
  parse line !! strip k = Some x.
Proof.
  intros Hms Hlast Hv. rewrite parse_winning, Hms. by apply values_of_last.
Qed.

End WithUnicode.

Lemma first_matching_grammar_wins_witness :
  @parse ascii_digits_only (py "D:12.5 fom=3")
  = @values_of ascii_digits_only
      (findall (@pattern_colon ascii_digits_only) (strip (py "D:12.5 fom=3"))).
Proof.
  refine (proj1 (@first_matching_grammar_wins ascii_digits_only
    (py "D:12.5 fom=3") []
    [pattern_equals; pattern_colon_unit; pattern_equals_unit]
    pattern_colon _ _ _)).
  - reflexivity.
  - constructor.
  - by vm_compute.
Defined.

Lemma unparsable_line_is_skipped_witness :
  @parse ascii_digits_only (py "garbage no match") = ∅
  ∧ @parse ascii_digits_only (py "  ") = ∅
  ∧ @parse ascii_digits_only (py "") = ∅.
Proof.
  split_and!.
  - refine (proj1 (@unparsable_line_is_skipped ascii_digits_only
      (py "garbage no match") 0%Q 0%Q Plot.init _)).
    right. repeat constructor.
  - refine (proj1 (@unparsable_line_is_skipped ascii_digits_only
      (py "  ") 0%Q 0%Q Plot.init _)).
    left. reflexivity.
  - refine (proj1 (@unparsable_line_is_skipped ascii_digits_only
      (py "") 0%Q 0%Q Plot.init _)).
    left. reflexivity.
Defined.

Lemma last_occurrence_wins_witness :
  @parse ascii_digits_only (py "D:1 D:2") !! py "D" = Some 2%Q.
Proof.
  refine (@last_occurrence_wins ascii_digits_only (py "D:1 D:2")
    [(py "D", py "1")] [] (py "D") (py "2") 2%Q _ _ _).
  - reflexivity.
  - constructor.
  - reflexivity.
Defined.

End ParserFacts.

(** ** The redraw gate *)

Module ThrottleFacts.
Import Plot.
Local Open Scope Q_scope.

Lemma throttle_due (now : Q) (st : plot) :
  update_interval st < now - last_update_time st →
  throttle now st = (true, set_last_update_time st now).
Proof.
  intros Hdue. unfold throttle.
  destruct (Qle_bool _ _) eqn:E; [|done].
  apply Qle_bool_iff in E. lra.
Qed.

Lemma throttle_early (now : Q) (st : plot) :
  now - last_update_time st <= update_interval st →
  throttle now st = (false, st).
Proof.
  intros Hearly. unfold throttle.
  apply Qle_bool_iff in Hearly. by rewrite Hearly.
Qed.

(** C9.  Of two calls of the gate within the interval, the first one being
    due, the first redraws and the second does not; a call later than the
    interval after the first redraws again.  The time of the last redraw
    becomes the time of the call when the gate redraws, and nothing changes
    when it does not. *)
Theorem throttle_twice_then_later (st : plot) (t1 t2 t3 : Q) :
  update_interval st < t1 - last_update_time st →
  t2 - t1 <= update_interval st →
  update_interval st < t3 - t1 →
  let r1 := throttle t1 st in
  let r2 := throttle t2 r1.2 in
  let r3 := throttle t3 r2.2 in
  (r1.1 = true ∧ last_update_time r1.2 = t1)
  ∧ (r2.1 = false ∧ r2.2 = r1.2)
  ∧ (r3.1 = true ∧ last_update_time r3.2 = t3)
  ∧ ∀ now s, (throttle now s).2
             = if (throttle now s).1 then set_last_update_time s now else s.
Proof.
  intros H1 H2 H3. cbn zeta.
  rewrite (throttle_due t1 st H1). cbn [fst snd].
  rewrite (throttle_early t2 (set_last_update_time st t1)) by done.
  cbn [fst snd].
  rewrite (throttle_due t3 (set_last_update_time st t1)) by done.
  split_and!; try done.
  intros now s. unfold throttle. by destruct (negb _).
Qed.

Lemma throttle_twice_then_later_witness :
  (throttle 1000 init).1 = true
  ∧ (throttle 1010 (throttle 1000 init).2).1 = false
  ∧ (throttle 1021 (throttle 1010 (throttle 1000 init).2).2).1 = true.
Proof.
  assert (H1 : update_interval init < 1000 - last_update_time init)
    by reflexivity.
  assert (H2 : 1010 - 1000 <= update_interval init) by (vm_compute; discriminate).
  assert (H3 : update_interval init < 1021 - 1000) by reflexivity.
  pose proof (throttle_twice_then_later init 1000 1010 1021 H1 H2 H3) as H.
  cbn zeta in *. tauto.
Defined.

End ThrottleFacts.

(** ** Decoding *)

Module CodecFacts.
Import Codec.

(** The handlers other than [Strict] decode every byte string. *)
Lemma decode_from_lenient (h : error_handler) (skip : nat) (bs : list N) :
  h ≠ Strict → is_Some (decode_from h skip bs).
Proof.
  intros Hh. revert skip.
  induction bs as [|b bs IH]; intros skip; [by eexists|].
  cbn [decode_from]. destruct skip as [|n]; [|apply IH].
  destruct (scan_at b bs) as [cp n|n|].
  - destruct (IH (pred n)) as [t ->]. by eexists.
  - destruct (IH (pred n)) as [t ->]. destruct h; [done| |]; by eexists.
  - destruct h; [done| |]; by eexists.
Qed.

(** On well-formed data the handler makes no difference. *)
Lemma decode_from_well_formed (h : error_handler) (skip : nat) (bs : list N)
    (text : pystr) :
  decode_from Strict skip bs = Some text → decode_from h skip bs = Some text.
Proof.
  revert skip text.
  induction bs as [|b bs IH]; intros skip text; [done|].
  cbn [decode_from]. destruct skip as [|n]; [|apply IH].
  destruct (scan_at b bs) as [cp n|n|]; [|done|done].
  destruct (decode_from Strict (pred n) bs) as [t|] eqn:E; [|done].
  intros [= <-]. by rewrite (IH _ _ E).
Qed.

Lemma decode_ignore_total (bs : list byte) : is_Some (decode Ignore bs).
Proof. by apply decode_from_lenient. Qed.

End CodecFacts.

(** ** The reader thread *)

Module SerialReaderFacts.
Import Codec SerialReader CodecFacts.

Lemma read_step_line (r : reader) (bs : list byte) :
  ∃ text, decode Ignore bs = Some text
    ∧ read_step r (LineRead bs) = (r, emitted_for text, true).
Proof.
  destruct (decode_ignore_total bs) as [text Ht]. exists text.
  split; [done|]. unfold read_step, emitted_for. rewrite Ht.
  by destruct (Text.strip text).
Qed.

(** C8, as the code has it.  A line is read in a pass on an open port, or
    in the pass that opens the port (lines 57 to 63 run in one pass).  In
    both it is decoded with the handler [Ignore], which never fails:
    malformed byte sequences are left out of the text (nothing is put in
    their place), and well-formed data is decoded as it is.  The text is
    trimmed, and [data_received] carries it exactly when it is not empty.
    Apart from what opening the port does, the pass changes nothing else,
    and the loop goes on. *)
Theorem line_is_decoded_trimmed_and_emitted
    (r : reader) (o : open_outcome) (bs : list byte) :
  (needs_open r = true → o = Opened) →
  ∃ text,
    decode Ignore bs = Some text
    ∧ (∀ t, decode Strict bs = Some t → text = t)
    ∧ iteration r (Transport o (LineRead bs))
      = (if needs_open r then set_ser r (Some true) 0 else r,
         (if needs_open r
          then [SerialOpen (port r) (baudrate r); ConnectionReady] else [])
         ++ (if decide (Text.strip text = []) then []
             else [DataReceived (Text.strip text)]), true).
Proof.
  intros Hopen.
  destruct (decode_ignore_total bs) as [text Ht].
  exists text. split_and!; [done| |].
  - intros t Hs. apply (decode_from_well_formed Ignore) in Hs.
    unfold decode in Ht. congruence.
  - unfold iteration. destruct (needs_open r) eqn:Hn.
    + rewrite (Hopen eq_refl). cbn [opening reading].
      destruct (read_step_line (set_ser r (Some true) 0) bs)
        as (text' & Ht' & Hstep).
      rewrite Hstep. assert (text' = text) as -> by congruence.
      unfold prepend, emitted_for. cbn [fst snd].
      by destruct (Text.strip text).
    + cbn [reading app].
      destruct (read_step_line r bs) as (text' & Ht' & Hstep).
      rewrite Hstep. assert (text' = text) as -> by congruence.
      unfold emitted_for. by destruct (Text.strip text).
Qed.

Lemma line_is_decoded_trimmed_and_emitted_witness :
  (needs_open default_reader = true → Opened = Opened)
  ∧ iteration default_reader
      (Transport Opened (LineRead [xff; x44; x3a; x31; x0a]))
    = (set_ser default_reader (Some true) 0,
       [SerialOpen (py "COM10") 115200; ConnectionReady;
        DataReceived (py "D:1")], true).
Proof.
  assert (H : needs_open default_reader = true → Opened = Opened)
    by reflexivity.
  split; [exact H|].
  destruct (line_is_decoded_trimmed_and_emitted
              default_reader Opened
              [xff; x44; x3a; x31; x0a] H) as (text & Ht & _ & Hit).
  rewrite Hit. injection Ht as <-. reflexivity.
Defined.

(** C8, as the claim has it, fails: were malformed sequences replaced, the
    byte [0xFF] alone would be decoded to the one character U+FFFD, which
    trimming keeps, and the line would be emitted; the reader emits
    nothing for it. *)
Lemma malformed_bytes_are_not_replaced :
  ¬ (∀ (r : reader) (o : open_outcome) (bs : list byte),
       needs_open r = false →
       ∃ text,
         decode Replace bs = Some text
         ∧ iteration r (Transport o (LineRead bs))
           = (r, (if decide (Text.strip text = []) then []
                  else [DataReceived (Text.strip text)]), true)).
Proof.
  intros Hclaim.
  destruct (Hclaim (set_ser default_reader (Some true) 0)
              Opened [xff] eq_refl) as (text & Ht & Hit).
  injection Ht as <-. vm_compute in Hit. discriminate.
Qed.

Lemma loop_pass (r : reader) (t : transport) (inputs : list input) :
  running r = true →
  loop r (Pass t :: inputs)
  = (let '(r', evs, go) := iteration r t in
     if go : bool then emit evs (loop r' inputs) else Outcome r' evs Failed).
Proof. intros Hr. cbn [loop]. by rewrite Hr. Qed.

(** A pass that meets a transport error while attempts are left: the counter
    goes up by one, the attempt is reported, and the loop goes on after a
    pause of one second. *)
Lemma iteration_retry (r : reader) (t : transport) :
  transport_error r t = true →
  (reconnect_count r + 1 <=? max_reconnect_attempts r)%Z = true →
  iteration r t
  = (set_count r (reconnect_count r + 1),
     opening_call r
     ++ [ErrorOccurred (Reconnecting (reconnect_count r + 1)
                          (max_reconnect_attempts r)); Sleep 1],
     true).
Proof.
  unfold transport_error, iteration, opening_call. intros Ht Hle.
  destruct (needs_open r) eqn:Hopen.
  - destruct (opening t) as [|e|e]; try done.
    unfold on_serial_exception, prepend. cbn. by rewrite Hle.
  - destruct (reading t) as [| |e|e]; try done.
    unfold read_step, on_serial_exception. cbn. by rewrite Hle.
Qed.

(** A pass that meets a transport error when no attempt is left: the failure
    is reported and the loop is left. *)
Lemma iteration_give_up (r : reader) (t : transport) :
  transport_error r t = true →
  (reconnect_count r + 1 <=? max_reconnect_attempts r)%Z = false →
  ∃ e, iteration r t
       = (set_count r (reconnect_count r + 1),
          opening_call r ++ [ErrorOccurred (CannotOpen (port r) e)], false).
Proof.
  unfold transport_error, iteration, opening_call. intros Ht Hle.
  destruct (needs_open r) eqn:Hopen.
  - destruct (opening t) as [|e|e]; try done. exists e.
    unfold on_serial_exception, prepend. cbn. by rewrite Hle.
  - destruct (reading t) as [| |e|e]; try done. exists e.
    unfold read_step, on_serial_exception. cbn. by rewrite Hle.
Qed.

(** C1, on the code.  With at most 3 attempts and the counter at 0, four
    passes in a row that meet a transport error end the loop in [Failed]:
    each error raises the counter by one, the first three are each reported
    as an attempt to reconnect (1/3, 2/3, 3/3), each followed by a pause of
    one second, and the fourth is reported as the failure and leaves the
    loop, whatever the transport would do next.

    When the port is not open, each of the four passes calls [serial.Serial]:
    the first attempt and three retries of the open, as the claim says.
    When the port is open (the errors come from [in_waiting] or
    [readline()]) the same three attempts are reported and the same pauses
    taken, but [serial.Serial] is never called: no clause closes [self.ser],
    so the test of line 56 stays false and every pass goes back to reading.
    The reconnection announced by the reports and by the comment of line 78
    does not take place, and the loop ends on the report that the port
    cannot be opened without having tried to open it. *)
Theorem reconnect_gives_up_after_three_retries
    (r : reader) (t1 t2 t3 t4 : transport) (more : list input) :
  reconnect_count r = 0%Z →
  max_reconnect_attempts r = 3%Z →
  Forall (λ t, transport_error r t = true) [t1; t2; t3; t4] →
  let o := run true r ([Pass t1; Pass t2; Pass t3; Pass t4] ++ more) in
  exit o = Failed
  ∧ (∃ e, status_events (trace o)
          = [Reconnecting 1 3; Reconnecting 2 3; Reconnecting 3 3;
             CannotOpen (port r) e])
  ∧ pauses (trace o) = [1%Q; 1%Q; 1%Q]
  ∧ opens (trace o) = (if needs_open r then 4 else 0)%nat
  ∧ reconnect_count (final o) = 4%Z
  ∧ o = run true r [Pass t1; Pass t2; Pass t3; Pass t4].
Proof.
  intros Hc Hm Herr.
  apply Forall_cons in Herr as [H1 Herr]. apply Forall_cons in Herr as [H2 Herr].
  apply Forall_cons in Herr as [H3 Herr]. apply Forall_cons in Herr as [H4 _].
  destruct r as [run0 p b s m c]. cbn in Hc, Hm. subst c m.
  set (r0 := Build true p b s 3 0).
  assert (Hrun : ∀ rest, ∃ e,
    run true (Build run0 p b s 3 0)
      ([Pass t1; Pass t2; Pass t3; Pass t4] ++ rest)
    = Outcome (Build true p b s 3 4)
        ((opening_call r0 ++ [ErrorOccurred (Reconnecting 1 3); Sleep 1])
         ++ (opening_call r0 ++ [ErrorOccurred (Reconnecting 2 3); Sleep 1])
         ++ (opening_call r0 ++ [ErrorOccurred (Reconnecting 3 3); Sleep 1])
         ++ (opening_call r0 ++ [ErrorOccurred (CannotOpen p e)]))
        Failed
    ∧ run true (Build run0 p b s 3 0) [Pass t1; Pass t2; Pass t3; Pass t4]
      = run true (Build run0 p b s 3 0)
          ([Pass t1; Pass t2; Pass t3; Pass t4] ++ rest)).
  { intros rest.
    destruct (iteration_give_up (Build true p b s 3 3) t4 H4 eq_refl)
      as [e E4].
    exists e. unfold run.
    change (set_running (Build run0 p b s 3 0) true) with r0.
    cbn [app].
    rewrite !(loop_pass r0) by done.
    rewrite (iteration_retry r0 t1 H1 eq_refl).
    change (set_count r0 (reconnect_count r0 + 1)) with (Build true p b s 3 1).
    rewrite !(loop_pass (Build true p b s 3 1)) by done.
    rewrite (iteration_retry (Build true p b s 3 1) t2 H2 eq_refl).
    change (set_count (Build true p b s 3 1)
              (reconnect_count (Build true p b s 3 1) + 1))
      with (Build true p b s 3 2).
    rewrite !(loop_pass (Build true p b s 3 2)) by done.
    rewrite (iteration_retry (Build true p b s 3 2) t3 H3 eq_refl).
    change (set_count (Build true p b s 3 2)
              (reconnect_count (Build true p b s 3 2) + 1))
      with (Build true p b s 3 3).
    rewrite !(loop_pass (Build true p b s 3 3)) by done.
    rewrite E4. split; reflexivity. }
  cbn zeta. destruct (Hrun more) as (e & Hmore & Hsame).
  rewrite Hsame, Hmore. cbn [exit trace final reconnect_count].
  unfold opening_call, needs_open. cbn [ser port baudrate r0].
  split_and!; try done.
  - exists e. by destruct s as [[]|].
  - by destruct s as [[]|].
  - by destruct s as [[]|].
Qed.

Lemma reconnect_gives_up_after_three_retries_witness :
  exit (run true (connected default_reader)
          [Pass read_fails; Pass read_fails; Pass read_fails; Pass read_fails])
  = Failed
  ∧ status_events (trace (run true (connected default_reader)
          [Pass read_fails; Pass read_fails; Pass read_fails; Pass read_fails]))
    = [Reconnecting 1 3; Reconnecting 2 3; Reconnecting 3 3;
       CannotOpen (py "COM10") (py "read failed")]
  ∧ pauses (trace (run true (connected default_reader)
          [Pass read_fails; Pass read_fails; Pass read_fails; Pass read_fails]))
    = [1%Q; 1%Q; 1%Q]
  ∧ opens (trace (run true (connected default_reader)
          [Pass read_fails; Pass read_fails; Pass read_fails; Pass read_fails]))
    = 0%nat
  ∧ opens (trace (run true default_reader
          [Pass open_fails; Pass open_fails; Pass open_fails; Pass open_fails]))
    = 4%nat.
Proof.
  assert (Hc : reconnect_count (connected default_reader) = 0%Z)
    by reflexivity.
  assert (Hm : max_reconnect_attempts (connected default_reader) = 3%Z)
    by reflexivity.
  assert (He : Forall (λ t, transport_error (connected default_reader) t = true)
                 [read_fails; read_fails; read_fails; read_fails])
    by (repeat constructor).
  assert (Hc' : reconnect_count default_reader = 0%Z) by reflexivity.
  assert (Hm' : max_reconnect_attempts default_reader = 3%Z) by reflexivity.
  assert (He' : Forall (λ t, transport_error default_reader t = true)
                  [open_fails; open_fails; open_fails; open_fails])
    by (repeat constructor).
  pose proof (reconnect_gives_up_after_three_retries
                (connected default_reader)
                read_fails read_fails read_fails read_fails
                [] Hc Hm He) as (H1 & _ & H3 & H4 & _).
  pose proof (reconnect_gives_up_after_three_retries default_reader
                open_fails open_fails open_fails open_fails
                [] Hc' Hm' He') as (_ & _ & _ & H4' & _).
  split_and!; [exact H1|reflexivity|exact H3|exact H4|exact H4'].
Defined.

End SerialReaderFacts.

(** ** The matcher *)

Module ReFacts.
Import Re ReSem.

Lemma rep_sound {R} (cls : N → bool) (min : nat) (s : pystr)
    (k : pystr → option R) (x : R) :
  rep cls min s k = Some x →
  ∃ w s', s = w ++ s' ∧ (min ≤ length w)%nat
          ∧ Forall (λ c, cls c = true) w ∧ k s' = Some x.
Proof.
  revert min. induction s as [|c s IH]; intros min; cbn [rep].
  - destruct min; [|done]. intros Hk. exists [], []. by split_and!.
  - destruct (cls c) eqn:Hc.
    + destruct (rep cls (pred min) s k) as [y|] eqn:E.
      * intros [= <-]. destruct (IH _ E) as (w & s' & -> & Hlen & Hall & Hk).
        exists (c :: w), s'. split_and!; [done|simpl; lia|by constructor|done].
      * destruct min; [|done]. intros Hk. exists [], (c :: s). by split_and!.
    + destruct min; [|done]. intros Hk. exists [], (c :: s). by split_and!.
Qed.

(** Whatever the matcher finds is a word of the pattern at the head of the
    text, with the groups the pattern captures on it. *)
Lemma rmatch_sound {R} (r : regex) (s : pystr) (caps : list pystr)
    (k : pystr → list pystr → option R) (x : R) :
  rmatch r s caps k = Some x →
  ∃ w s' cs, s = w ++ s' ∧ sem r w cs ∧ k s' (caps ++ cs) = Some x.
Proof.
  revert s caps k.
  induction r as [|c|min cls|r1 IH1|r1 IH1 r2 IH2|r1 IH1 r2 IH2|r1 IH1];
    intros s caps k; cbn [rmatch].
  - intros Hk. exists [], s, []. rewrite app_nil_r. split_and!; [done|constructor|done].
  - destruct s as [|c' s]; [done|]. destruct (N.eqb_spec c c') as [<-|]; [|done].
    intros Hk. exists [c], s, []. rewrite app_nil_r.
    split_and!; [done|constructor|done].
  - intros (w & s' & -> & Hlen & Hall & Hk)%rep_sound.
    exists w, s', []. rewrite app_nil_r. split_and!; [done|by constructor|done].
  - destruct (rmatch r1 s caps k) as [y|] eqn:E.
    + intros [= <-]. destruct (IH1 _ _ _ E) as (w & s' & cs & -> & Hsem & Hk).
      exists w, s', cs. split_and!; [done|by constructor|done].
    + intros Hk. exists [], s, []. rewrite app_nil_r.
      split_and!; [done|apply sem_opt_none|done].
  - intros (w1 & s1 & cs1 & -> & Hsem1 & Hk1)%IH1.
    apply IH2 in Hk1 as (w2 & s2 & cs2 & -> & Hsem2 & Hk2).
    exists (w1 ++ w2), s2, (cs1 ++ cs2).
    split_and!; [by rewrite <- (assoc_L (++))|by constructor|].
    by rewrite (assoc_L (++)).
  - destruct (rmatch r1 s caps k) as [y|] eqn:E.
    + intros [= <-]. destruct (IH1 _ _ _ E) as (w & s' & cs & -> & Hsem & Hk).
      exists w, s', cs. split_and!; [done|by apply sem_alt_l|done].
    + intros (w & s' & cs & -> & Hsem & Hk)%IH2.
      exists w, s', cs. split_and!; [done|by apply sem_alt_r|done].
  - intros (w & s' & cs & -> & Hsem & Hk)%IH1.
    exists w, s', (cs ++ [w]). split_and!; [done|by constructor|].
    rewrite length_app, Nat.add_sub, take_app_length in Hk.
    by rewrite (assoc_L (++)).
Qed.

Lemma groupless_no_groups (r : regex) (w : pystr) (cs : list pystr) :
  groupless r = true → sem r w cs → cs = [].
Proof.
  intros Hr Hsem. induction Hsem; cbn [groupless] in Hr; try done.
  - auto.
  - apply andb_prop in Hr as [H1 H2]. by rewrite IHHsem1, IHHsem2.
  - apply andb_prop in Hr as [H1 H2]. auto.
  - apply andb_prop in Hr as [H1 H2]. auto.
Qed.

End ReFacts.

Module FindallFacts.
Import Re ReSem ReFacts.

Lemma rep_mono {R R'} (cls : N → bool) (min : nat) (s : pystr)
    (k : pystr → option R) (k' : pystr → option R') :
  (∀ s', is_Some (k s') → is_Some (k' s')) →
  is_Some (rep cls min s k) → is_Some (rep cls min s k').
Proof.
  intros Hk. revert min. induction s as [|c s IH]; intros min; cbn [rep].
  - destruct min; [apply Hk|done].
  - destruct (cls c).
    + destruct (rep cls (pred min) s k) as [y|] eqn:E.
      * intros _. destruct (IH (pred min)) as [z ->]; [by rewrite E|]. by eexists.
      * destruct min; [|by intros [? ?]]. intros Hs%Hk.
        by destruct (rep cls (pred 0) s k').
    + destruct min; [apply Hk|done].
Qed.

(** A pattern that matches with one continuation matches with every
    continuation that accepts at least as much. *)
Lemma rmatch_mono {R R'} (r : regex) (s : pystr) (caps : list pystr)
    (k : pystr → list pystr → option R) (k' : pystr → list pystr → option R') :
  (∀ s' c, is_Some (k s' c) → is_Some (k' s' c)) →
  is_Some (rmatch r s caps k) → is_Some (rmatch r s caps k').
Proof.
  revert s caps k k'.
  induction r as [|c|min cls|r1 IH1|r1 IH1 r2 IH2|r1 IH1 r2 IH2|r1 IH1];
    intros s caps k k' Hk; cbn [rmatch].
  - apply Hk.
  - destruct s as [|c' s]; [done|]. destruct (c =? c'); [apply Hk|done].
  - apply rep_mono. intros s'. apply Hk.
  - destruct (rmatch r1 s caps k) as [y|] eqn:E.
    + intros _. destruct (IH1 s caps k k' Hk) as [z ->]; [by rewrite E|].
      by eexists.
    + intros Hs%Hk. by destruct (rmatch r1 s caps k').
  - apply IH1. intros s' c. by apply IH2.
  - destruct (rmatch r1 s caps k) as [y|] eqn:E.
    + intros _. destruct (IH1 s caps k k' Hk) as [z ->]; [by rewrite E|].
      by eexists.
    + intros Hs. apply (IH2 s caps k k' Hk) in Hs.
      by destruct (rmatch r1 s caps k').
  - apply IH1. intros s' c. apply Hk.
Qed.

Lemma rmatch_seq_mono {R R'} (r r2 r2' : regex) (s : pystr) (caps : list pystr)
    (k : pystr → list pystr → option R) (k' : pystr → list pystr → option R') :
  (∀ s' c, is_Some (rmatch r2 s' c k) → is_Some (rmatch r2' s' c k')) →
  is_Some (rmatch (Seq r r2) s caps k) → is_Some (rmatch (Seq r r2') s caps k').
Proof. intros Hk. cbn [rmatch]. by apply rmatch_mono. Qed.

(** [findall] finds nothing exactly when the pattern matches at no position
    of the text. *)
Lemma findall_from_nil (r : regex) (skip : nat) (s : pystr) :
  (∀ t, t `suffix_of` s → match_at r t = None) → findall_from r skip s = [].
Proof.
  revert skip. induction s as [|c s IH]; intros skip Hno; cbn [findall_from].
  - rewrite (Hno []) by done. by destruct skip.
  - assert (Hs : ∀ t, t `suffix_of` s → match_at r t = None).
    { intros t Ht. apply Hno. by apply suffix_cons_r. }
    destruct skip; [|by apply IH]. rewrite (Hno (c :: s)) by done. by apply IH.
Qed.

Lemma findall_nil (r : regex) (s : pystr) :
  findall r s = [] ↔ ∀ t, t `suffix_of` s → match_at r t = None.
Proof.
  split; [|apply findall_from_nil]. unfold findall.
  induction s as [|c s IH]; cbn [findall_from].
  - intros Hf t Ht%suffix_nil_inv. subst t.
    by destruct (match_at r []) as [[n caps]|].
  - destruct (match_at r (c :: s)) as [[n caps]|] eqn:E; [done|].
    intros Hf t [[|c' pre] Hpre]; simplify_eq/=; [done|].
    apply IH; [done|]. by exists pre.
Qed.

(** Every pair [findall] reports comes from a match at some position. *)
Lemma findall_from_elem (r : regex) (skip : nat) (s : pystr) (kv : pystr * pystr) :
  kv ∈ findall_from r skip s →
  ∃ t n caps, match_at r t = Some (n, caps) ∧ groups2 caps = kv.
Proof.
  revert skip. induction s as [|c s IH]; intros skip; cbn [findall_from].
  - destruct skip; [|by intros ?%elem_of_nil].
    destruct (match_at r []) as [[n caps]|] eqn:E; [|by intros ?%elem_of_nil].
    intros ->%list_elem_of_singleton. eauto.
  - destruct skip; [|apply IH].
    destruct (match_at r (c :: s)) as [[n caps]|] eqn:E; [|apply IH].
    intros [->|Hin]%elem_of_cons; [eauto|by eapply IH].
Qed.

End FindallFacts.

(** ** The tokens the patterns read *)

Module TokenFacts.
Import Text Re ReSem ReFacts FindallFacts Parser Tokens.

Lemma alnum_not_blank (c : N) : isalnum_ascii c = true → isspace c = false.
Proof.
  intros Ha. apply not_true_is_false. intros Hs. revert Ha Hs.
  unfold isalnum_ascii, isspace.
  rewrite !orb_true_iff, !andb_true_iff, !N.leb_le, !N.eqb_eq. lia.
Qed.

(** A word that neither starts nor ends with a blank is its own [strip]. *)
Lemma strip_id (w : pystr) (a z : N) :
  head w = Some a → last w = Some z →
  isspace a = false → isspace z = false → strip w = w.
Proof.
  intros Hh Hla Ha Hz. unfold strip, rstrip.
  destruct w as [|c w]; [done|]. injection Hh as ->.
  cbn [lstrip]. rewrite Ha.
  apply last_Some in Hla as [w' Hw']. rewrite Hw', reverse_snoc.
  cbn [lstrip]. rewrite Hz. by rewrite <- reverse_snoc, reverse_involutive.
Qed.

Section WithUnicode.
Context `{UnicodeDB}.

Lemma sem_seq_inv (r1 r2 : regex) (w : pystr) (cs : list pystr) :
  sem (Seq r1 r2) w cs →
  ∃ w1 w2 cs1 cs2, w = w1 ++ w2 ∧ cs = cs1 ++ cs2
                   ∧ sem r1 w1 cs1 ∧ sem r2 w2 cs2.
Proof. inversion 1; subst. by eexists _, _, _, _. Qed.

Lemma sem_seq_skip (r1 r2 : regex) (w : pystr) (cs : list pystr) :
  groupless r1 = true → sem (Seq r1 r2) w cs → ∃ w2, sem r2 w2 cs.
Proof.
  intros Hg (w1 & w2 & cs1 & cs2 & -> & -> & H1 & H2)%sem_seq_inv.
  rewrite (groupless_no_groups _ _ _ Hg H1). by exists w2.
Qed.

Lemma sem_seq_drop (r1 r2 : regex) (w : pystr) (cs : list pystr) :
  groupless r2 = true → sem (Seq r1 r2) w cs → ∃ w1, sem r1 w1 cs.
Proof.
  intros Hg (w1 & w2 & cs1 & cs2 & -> & -> & H1 & H2)%sem_seq_inv.
  rewrite (groupless_no_groups _ _ _ Hg H2), app_nil_r. by exists w1.
Qed.

Lemma sem_key (w : pystr) (cs : list pystr) :
  sem key w cs → cs = [w] ∧ is_key w.
Proof.
  unfold key. inversion 1 as [| | | | | | | |r w' cs' Hr]; subst.
  inversion Hr; subst. split; [done|]. split; [|done].
  intros ->. simpl in *. lia.
Qed.

Lemma sem_number (w : pystr) (cs : list pystr) :
  sem number w cs → cs = [w] ∧ is_number w.
Proof.
  unfold number. inversion 1 as [| | | | | | | |r w' cs' Hr]; subst.
  apply sem_seq_inv in Hr as (sign & w2 & cs1 & cs2 & -> & -> & Hsign & Hr).
  apply sem_seq_inv in Hr as (ds & frac & cs3 & cs4 & -> & -> & Hds & Hfrac).
  assert (Hs : cs1 = [] ∧ (sign = [] ∨ sign = [45])).
  { inversion Hsign as [| | |r w' cs' Hl| | | | |]; subst; [|by auto].
    inversion Hl; subst. auto. }
  destruct Hs as [-> Hs].
  inversion Hds; subst.
  assert (Hf : cs4 = [] ∧ (frac = [] ∨ ∃ ds', frac = 46 :: ds' ∧ ds' ≠ []
                ∧ Forall (λ c, isdigit c = true) ds')).
  { inversion Hfrac as [| | |r w' cs' Hl| | | | |]; subst; [|by auto].
    apply sem_seq_inv in Hl as (p & ds' & cs5 & cs6 & -> & -> & Hp & Hds').
    inversion Hp; subst. inversion Hds'; subst. split; [done|]. right.
    exists ds'. split_and!; [done| |done]. intros ->. simpl in *. lia. }
  destruct Hf as [-> Hf]. split; [done|].
  exists sign, ds, frac. split_and!; try done.
  intros ->. simpl in *. lia.
Qed.

(** The groups of a match of any of the four patterns: a key and a number. *)
Lemma sem_pattern (p : regex) (w : pystr) (cs : list pystr) :
  p ∈ patterns → sem p w cs →
  ∃ k v, cs = [k; v] ∧ is_key k ∧ is_number v.
Proof.
  unfold patterns. rewrite !elem_of_cons, elem_of_nil.
  intros [->|[->|[->|[->|[]]]]] Hsem.
  - apply sem_seq_inv in Hsem as (k & w2 & cs1 & cs2 & -> & -> & Hk & Hr).
    apply sem_key in Hk as [-> Hk].
    apply sem_seq_skip in Hr as [w3 Hr]; [|done].
    apply sem_seq_skip in Hr as [v Hr]; [|done].
    apply sem_number in Hr as [-> Hv]. by exists k, v.
  - apply sem_seq_inv in Hsem as (k & w2 & cs1 & cs2 & -> & -> & Hk & Hr).
    apply sem_key in Hk as [-> Hk].
    apply sem_seq_skip in Hr as [w3 Hr]; [|done].
    apply sem_seq_skip in Hr as [w4 Hr]; [|done].
    apply sem_seq_skip in Hr as [v Hr]; [|done].
    apply sem_number in Hr as [-> Hv]. by exists k, v.
  - apply sem_seq_inv in Hsem as (k & w2 & cs1 & cs2 & -> & -> & Hk & Hr).
    apply sem_key in Hk as [-> Hk].
    apply sem_seq_skip in Hr as [w3 Hr]; [|done].
    apply sem_seq_skip in Hr as [w4 Hr]; [|done].
    apply sem_seq_skip in Hr as [w5 Hr]; [|done].
    apply sem_seq_drop in Hr as [v Hr]; [|done].
    apply sem_number in Hr as [-> Hv]. by exists k, v.
  - apply sem_seq_inv in Hsem as (k & w2 & cs1 & cs2 & -> & -> & Hk & Hr).
    apply sem_key in Hk as [-> Hk].
    apply sem_seq_skip in Hr as [w3 Hr]; [|done].
    apply sem_seq_skip in Hr as [w4 Hr]; [|done].
    apply sem_seq_skip in Hr as [w5 Hr]; [|done].
    apply sem_seq_drop in Hr as [v Hr]; [|done].
    apply sem_number in Hr as [-> Hv]. by exists k, v.
Qed.

Lemma findall_tokens (p : regex) (line : pystr) (k v : pystr) :
  p ∈ patterns → (k, v) ∈ findall p line → is_key k ∧ is_number v.
Proof.
  intros Hp (t & n & caps & Hm & Hg)%findall_from_elem.
  unfold match_at in Hm.
  apply rmatch_sound in Hm as (w & s' & cs & -> & Hsem & [= <- <-]).
  destruct (sem_pattern p w cs Hp Hsem) as (k' & v' & -> & Hk & Hv).
  cbn in Hg. by injection Hg as <- <-.
Qed.

End WithUnicode.
End TokenFacts.

(** ** Reading the value of a token *)

Module ValueFacts.
Import Text Re Parser Tokens TokenFacts FindallFacts.

Section WithUnicode.
Context `{UnicodeDB}.

Lemma isdigit_decimal (c : N) : isdigit c = true → is_Some (decimal c).
Proof. unfold isdigit. apply bool_decide_eq_true_1. Qed.

Lemma digit_not_sign (c : N) :
  isdigit c = true → c ≠ 45 ∧ c ≠ 43 ∧ c ≠ 46.
Proof.
  intros [d Hd]%isdigit_decimal.
  split_and!; intros ->; vm_compute in Hd; discriminate.
Qed.

Lemma digit_not_blank (c : N) :
  digits_are_not_blank → isdigit c = true → isspace c = false.
Proof.
  intros Hdb [d Hd]%isdigit_decimal. unfold decimal in Hd.
  destruct ((48 <=? c) && (c <=? 57)) eqn:Hr.
  - apply not_true_is_false. intros Hs. revert Hr Hs. unfold isspace.
    rewrite !orb_true_iff, !andb_true_iff, !N.leb_le, !N.eqb_eq. lia.
  - destruct (c <? 128); [done|]. apply Hdb. by eexists.
Qed.

Lemma digits_some (acc : N) (ds : pystr) :
  Forall (λ c, isdigit c = true) ds → is_Some (digits acc ds).
Proof.
  intros Hds. revert acc. induction Hds as [|c ds Hc _ IH]; intros acc.
  - by eexists.
  - cbn [digits]. destruct (isdigit_decimal c Hc) as [d ->]. apply IH.
Qed.

Lemma split_point_digits (ds rest : pystr) :
  Forall (λ c, isdigit c = true) ds →
  split_point ds = (ds, []) ∧ split_point (ds ++ 46 :: rest) = (ds, rest).
Proof.
  induction 1 as [|c ds Hc _ [IH1 IH2]]; [done|].
  destruct (digit_not_sign c Hc) as (_ & _ & Hp).
  cbn [split_point app]. destruct (N.eqb_spec c 46) as [|_]; [done|].
  by rewrite IH1, IH2.
Qed.

(** What [float] does once the sign is taken off. *)
Lemma unsigned_some (neg : bool) (ds frac : pystr) :
  ds ≠ [] → Forall (λ c, isdigit c = true) ds →
  (frac = [] ∨ ∃ ds', frac = 46 :: ds' ∧ ds' ≠ []
                      ∧ Forall (λ c, isdigit c = true) ds') →
  is_Some
    (let '(ip, fp) := split_point (ds ++ frac) in
     match ip ++ fp with
     | [] => None
     | all =>
         match digits 0 all with
         | Some m =>
             let num := if neg then (- Z.of_N m)%Z else Z.of_N m in
             Some (Qred (num # Z.to_pos (10 ^ Z.of_nat (length fp))))
         | None => None
         end
     end).
Proof.
  intros Hne Hds Hfrac.
  destruct (split_point_digits ds [] Hds) as [Hsp _].
  destruct Hfrac as [->|(ds' & -> & Hne' & Hds')].
  - rewrite app_nil_r, Hsp, app_nil_r.
    destruct (digits_some 0 ds Hds) as [m Hm].
    destruct ds as [|c ds0]; [done|]. rewrite Hm. by eexists.
  - destruct (split_point_digits ds ds' Hds) as [_ ->].
    assert (Hall : Forall (λ c, isdigit c = true) (ds ++ ds'))
      by by apply Forall_app.
    destruct (digits_some 0 _ Hall) as [m Hm].
    destruct ds as [|c ds0]; [done|]. cbn [app] in *. rewrite Hm. by eexists.
Qed.

Lemma py_float_unsigned (d : N) (b : pystr) :
  strip (d :: b) = d :: b → d ≠ 45 → d ≠ 43 →
  py_float (d :: b)
  = (let '(ip, fp) := split_point (d :: b) in
     match ip ++ fp with
     | [] => None
     | all =>
         match digits 0 all with
         | Some m =>
             Some (Qred (Z.of_N m # Z.to_pos (10 ^ Z.of_nat (length fp))))
         | None => None
         end
     end).
Proof.
  intros Hs H45 H43. unfold py_float. rewrite Hs.
  destruct d as [|p]; [done|].
  do 6 (try destruct p as [p|p|]); try done; congruence.
Qed.

Lemma py_float_signed (b : pystr) :
  strip (45 :: b) = 45 :: b →
  py_float (45 :: b)
  = (let '(ip, fp) := split_point b in
     match ip ++ fp with
     | [] => None
     | all =>
         match digits 0 all with
         | Some m =>
             Some (Qred ((- Z.of_N m)%Z # Z.to_pos (10 ^ Z.of_nat (length fp))))
         | None => None
         end
     end).
Proof. intros Hs. unfold py_float. by rewrite Hs. Qed.

(** [float] reads every number the patterns capture. *)
Lemma py_float_number (v : pystr) :
  digits_are_not_blank → is_number v → is_Some (py_float v).
Proof.
  intros Hdb (sign & ds & frac & -> & Hsign & Hne & Hds & Hfrac).
  destruct ds as [|d ds0] eqn:Eds; [done|]. rewrite <- Eds in *.
  assert (Hd : isdigit d = true).
  { rewrite Eds in Hds. by apply Forall_cons in Hds as [? _]. }
  assert (Hlast : ∃ z, last (sign ++ ds ++ frac) = Some z ∧ isdigit z = true).
  { destruct Hfrac as [->|(ds' & -> & Hne' & Hds')].
    - rewrite app_nil_r. destruct (last ds) as [z|] eqn:Hz.
      + exists z. rewrite last_app, Hz. split; [done|].
        apply last_Some_elem_of in Hz.
        by eapply (proj1 (Forall_forall _ _) Hds).
      + apply last_None in Hz. done.
    - destruct (last ds') as [z|] eqn:Hz.
      + exists z. rewrite !last_app, last_cons, Hz. split; [done|].
        apply last_Some_elem_of in Hz.
        by eapply (proj1 (Forall_forall _ _) Hds').
      + apply last_None in Hz. done. }
  destruct Hlast as (z & Hz & Hzd).
  destruct Hsign as [->| ->].
  - cbn [app] in *. rewrite Eds in Hz |- *. cbn [app] in *.
    destruct (digit_not_sign d Hd) as (H45 & H43 & _).
    rewrite py_float_unsigned; [| |done|done].
    + pose proof (unsigned_some false (d :: ds0) frac) as Hu.
      rewrite <- Eds in Hu. specialize (Hu Hne Hds Hfrac).
      rewrite Eds in Hu. exact Hu.
    + eapply strip_id; [done|exact Hz| |]; by apply digit_not_blank.
  - cbn [app] in *. rewrite py_float_signed.
    + exact (unsigned_some true ds frac Hne Hds Hfrac).
    + eapply strip_id; [done|exact Hz|done|]. by apply digit_not_blank.
Qed.

End WithUnicode.
End ValueFacts.

(** ** What the parser returns *)

Module ParseFacts.
Import Text Re Parser Tokens TokenFacts FindallFacts ValueFacts.

Lemma lstrip_head (s : pystr) (a : N) :
  head (lstrip s) = Some a → isspace a = false.
Proof.
  induction s as [|c s IH]; [done|]. cbn [lstrip].
  destruct (isspace c) eqn:Hc; [done|]. by intros [= <-].
Qed.

Lemma lstrip_last (s : pystr) (z : N) :
  last s = Some z → isspace z = false → last (lstrip s) = Some z.
Proof.
  intros Hz Hb. induction s as [|c s IH]; [done|]. cbn [lstrip].
  destruct (isspace c) eqn:Hc; [|done]. apply IH.
  destruct s as [|c' s']; [|by rewrite last_cons_cons in Hz].
  cbn in Hz. congruence.
Qed.

(** [strip] leaves nothing to strip. *)
Lemma strip_strip (s : pystr) : strip (strip s) = strip s.
Proof.
  destruct (strip s) as [|c w] eqn:E; [done|]. rewrite <- E.
  unfold strip, rstrip in E |- *.
  destruct (lstrip s) as [|a m] eqn:Em; [done|].
  assert (Ha : isspace a = false) by (apply (lstrip_head s); by rewrite Em).
  assert (Hl : last (lstrip (reverse (a :: m))) = Some a).
  { apply lstrip_last; [|done]. by rewrite last_reverse. }
  fold (rstrip (a :: m)) in E |- *. fold (strip (rstrip (a :: m))).
  assert (Hh : head (rstrip (a :: m)) = Some a).
  { unfold rstrip. by rewrite head_reverse. }
  destruct (last (rstrip (a :: m))) as [z|] eqn:Hz.
  - eapply strip_id; [exact Hh|exact Hz|done|].
    unfold rstrip in Hz. rewrite last_reverse in Hz.
    by apply (lstrip_head (reverse (a :: m))).
  - apply last_None in Hz. by rewrite Hz in Hh.
Qed.

Section WithUnicode.
Context `{UnicodeDB}.

Lemma winning_matches_cases (ps : list regex) (line : pystr) :
  (winning_matches ps line = [] ∧ Forall (λ p, findall p line = []) ps)
  ∨ ∃ p, p ∈ ps ∧ findall p line ≠ []
         ∧ winning_matches ps line = findall p line.
Proof.
  induction ps as [|p ps IH]; [by left|]. cbn [winning_matches].
  destruct (findall p line) as [|m ms] eqn:E.
  - destruct IH as [[Hw Hall]|(q & Hq & Hne & Hw)].
    + left. split; [done|]. by constructor.
    + right. exists q. split_and!; [by right|done|done].
  - right. exists p. rewrite E. split_and!; [by left|done|done].
Qed.

Lemma values_of_lookup (ms : list (pystr * pystr)) (k : pystr) (x : Q) :
  values_of ms !! k = Some x →
  ∃ k' v, (k', v) ∈ ms ∧ strip k' = k ∧ py_float v = Some x.
Proof.
  unfold values_of. induction ms as [|[k' v] ms IH] using rev_ind; [done|].
  rewrite foldl_app. cbn [foldl]. unfold store_match at 1. cbn [fst snd].
  destruct (py_float v) as [y|] eqn:Hv.
  - destruct (decide (strip k' = k)) as [<-|Hne].
    + rewrite lookup_insert_eq. intros [= <-]. exists k', v.
      split_and!; [|done|done]. apply elem_of_app. right. by left.
    + rewrite lookup_insert_ne by done.
      intros (k2 & v2 & Hin & Hk & Hf)%IH. exists k2, v2.
      split_and!; [|done|done]. apply elem_of_app. by left.
  - intros (k2 & v2 & Hin & Hk & Hf)%IH. exists k2, v2.
    split_and!; [|done|done]. apply elem_of_app. by left.
Qed.

Lemma values_of_member (ms : list (pystr * pystr)) (k v : pystr) :
  (k, v) ∈ ms → is_Some (py_float v) → is_Some (values_of ms !! strip k).
Proof.
  unfold values_of. induction ms as [|[k' v'] ms IH] using rev_ind.
  { by intros ?%elem_of_nil. }
  intros Hin Hv. rewrite foldl_app. cbn [foldl]. unfold store_match at 1.
  cbn [fst snd]. apply elem_of_app in Hin as [Hin|Hin].
  - specialize (IH Hin Hv). destruct (py_float v') as [y|]; [|done].
    destruct (decide (strip k' = strip k)) as [->|Hne].
    + rewrite lookup_insert_eq. by eexists.
    + by rewrite lookup_insert_ne.
  - apply elem_of_cons in Hin as [Hin|Hin]; [|by apply elem_of_nil in Hin].
    injection Hin as <- <-. destruct Hv as [x ->].
    rewrite lookup_insert_eq. by eexists.
Qed.

Lemma key_strip (k : pystr) : is_key k → strip k = k.
Proof.
  intros [Hne Hall]. destruct k as [|a k'] eqn:Ek; [done|]. rewrite <- Ek in *.
  destruct (last k) as [z|] eqn:Hz.
  - eapply strip_id; [by rewrite Ek|exact Hz| |].
    + rewrite Ek in Hall. apply Forall_cons in Hall as [Ha _].
      by apply alnum_not_blank.
    + apply alnum_not_blank. apply last_Some_elem_of in Hz.
      by eapply (proj1 (Forall_forall _ _) Hall).
  - apply last_None in Hz. done.
Qed.

End WithUnicode.
End ParseFacts.

Module ParserExtras.
Import Text Re Parser Tokens TokenFacts FindallFacts ValueFacts ParseFacts.

Section WithUnicode.
Context `{UnicodeDB}.

(** X1.  Every token any of the four patterns finds has a non-empty
    alphanumeric key, which [strip] leaves as it is, and a value that [float]
    reads: the warning branch for [ValueError] is never taken. *)
Theorem tokens_always_convert (p : regex) (line k v : pystr) :
  digits_are_not_blank →
  p ∈ patterns →
  (k, v) ∈ findall p line →
  is_key k ∧ strip k = k ∧ is_number v ∧ is_Some (py_float v).
Proof.
  intros Hdb Hp Hin. destruct (findall_tokens p line k v Hp Hin) as [Hk Hv].
  split_and!; [done|by apply key_strip|done|by apply py_float_number].
Qed.

(** X2.  The parsed mapping is empty exactly when none of the four patterns
    has a match on the stripped line: a line with a match always yields a
    value, hence a sample. *)
Theorem parse_empty_iff_no_match (line : pystr) :
  digits_are_not_blank →
  parse line = ∅ ↔ Forall (λ p, findall p (strip line) = []) patterns.
Proof.
  intros Hdb. split.
  - intros Hempty.
    destruct (winning_matches_cases patterns (strip line))
      as [[_ Hall]|(p & Hp & Hne & Hw)]; [done|].
    exfalso. rewrite ParserFacts.parse_winning, Hw in Hempty.
    destruct (findall p (strip line)) as [|m ms] eqn:E using rev_ind; [done|].
    clear IHms. destruct m as [k v].
    destruct (findall_tokens p (strip line) k v Hp) as [_ Hnum].
    { rewrite E. apply elem_of_app. right. by left. }
    destruct (py_float_number v Hdb Hnum) as [x Hx].
    pose proof (ParserFacts.values_of_last ms [] k v x Hx (Forall_nil_2 _)) as Hl.
    rewrite Hempty, lookup_empty in Hl. done.
  - intros Hall. rewrite ParserFacts.parse_winning.
    by rewrite ParserFacts.winning_matches_none.
Qed.

(** X3.  The keys of the parsed mapping are exactly the keys that the
    winning pattern captures on the trimmed line, each a non-empty
    alphanumeric word: no captured key is left out, whether it names a known
    field or not, and no other key comes in. *)
Theorem parsed_keys (line k : pystr) :
  digits_are_not_blank →
  (is_Some (parse line !! k)
   ↔ ∃ v, (k, v) ∈ winning_matches patterns (strip line))
  ∧ (is_Some (parse line !! k) → is_key k).
Proof.
  intros Hdb. rewrite ParserFacts.parse_winning.
  assert (Hfwd : is_Some (values_of (winning_matches patterns (strip line)) !! k)
                 → is_key k
                   ∧ ∃ v, (k, v) ∈ winning_matches patterns (strip line)).
  { intros [x (k' & v & Hin & Hk & Hv)%values_of_lookup].
    destruct (winning_matches_cases patterns (strip line))
      as [[Hw _]|(p & Hp & _ & Hw)].
    - rewrite Hw in Hin. by apply elem_of_nil in Hin.
    - pose proof Hin as Hin'. rewrite Hw in Hin'.
      destruct (findall_tokens p _ k' v Hp Hin') as [Hkey Hnum].
      rewrite (key_strip k' Hkey) in Hk. subst k'. split; [done|]. by exists v. }
  split; [split|]; [by intros [_ ?]%Hfwd| |by intros [? _]%Hfwd].
  intros [v Hin].
  destruct (winning_matches_cases patterns (strip line))
    as [[Hw _]|(p & Hp & _ & Hw)].
  - rewrite Hw in Hin. by apply elem_of_nil in Hin.
  - pose proof Hin as Hin'. rewrite Hw in Hin'.
    destruct (findall_tokens p _ k v Hp Hin') as [Hkey Hnum].
    rewrite <- (key_strip k Hkey). apply (values_of_member _ k v Hin).
    by apply py_float_number.
Qed.

Lemma equals_unit_needs_equals (s : pystr) :
  is_Some (match_at pattern_equals_unit s) → is_Some (match_at pattern_equals s).
Proof.
  unfold match_at, pattern_equals_unit, pattern_equals.
  do 4 (apply rmatch_seq_mono; intros ? ?).
  cbn [rmatch]. apply rmatch_mono. intros ? ? _. by eexists.
Qed.

Lemma equals_unit_nil (line : pystr) :
  findall pattern_equals line = [] → findall pattern_equals_unit line = [].
Proof.
  rewrite !findall_nil. intros Hno t Ht. specialize (Hno t Ht).
  destruct (match_at pattern_equals_unit t) eqn:E; [|done].
  destruct (equals_unit_needs_equals t) as [y Hy]; [by rewrite E|]. congruence.
Qed.

(** X4.  The fourth pattern never supplies the values: where it has a match
    the second pattern has one too and is tried first.  Units after an equals
    sign are thus dropped by the second pattern, which stops before them. *)
Theorem fourth_pattern_never_wins (line : pystr) :
  try_patterns patterns line
  = try_patterns [pattern_colon; pattern_equals; pattern_colon_unit] line.
Proof.
  unfold patterns. cbn [try_patterns].
  destruct (findall pattern_colon line); [|done].
  destruct (findall pattern_equals line) eqn:E; [|done].
  destruct (findall pattern_colon_unit line); [|done].
  by rewrite (equals_unit_nil line E).
Qed.

(** X5.  Blanks around a line do not change what is parsed from it. *)
Theorem parse_strip (line : pystr) : parse (strip line) = parse line.
Proof. unfold parse. by rewrite strip_strip. Qed.

End WithUnicode.

Lemma ascii_digits_are_not_blank : @digits_are_not_blank ascii_digits_only.
Proof. intros c [d Hd]. discriminate. Qed.

Lemma tokens_always_convert_witness :
  is_Some (@py_float ascii_digits_only (py "12.5")).
Proof.
  refine (proj2 (proj2 (proj2 (@tokens_always_convert ascii_digits_only
    pattern_colon (py "D:12.5") (py "D") (py "12.5")
    ascii_digits_are_not_blank _ _)))).
  - rewrite list_elem_of_In. simpl. auto.
  - rewrite list_elem_of_In. vm_compute. auto.
Defined.

Lemma parse_empty_iff_no_match_witness :
  @parse ascii_digits_only (py "garbage no match") = ∅.
Proof.
  apply (proj2 (@parse_empty_iff_no_match ascii_digits_only
    (py "garbage no match") ascii_digits_are_not_blank)).
  repeat constructor.
Defined.

Lemma parsed_keys_witness :
  (py "foo" ∉ Plot.known_fields)
  ∧ is_Some (@parse ascii_digits_only (py "foo:1 D:2") !! py "foo").
Proof.
  split.
  - rewrite list_elem_of_In. vm_compute. intuition discriminate.
  - apply (proj2 (proj1 (@parsed_keys ascii_digits_only (py "foo:1 D:2")
      (py "foo") ascii_digits_are_not_blank))).
    exists (py "1"). rewrite list_elem_of_In. vm_compute. auto.
Defined.

End ParserExtras.

(** ** Sessions *)

Module SessionFacts.
Import Deque Plot DequeFacts PlotFacts Session.

Lemma init_steady : steady init.
Proof.
  split; [apply init_aligned|done|done|cbn; lia|].
  exists 0%Z. by split.
Qed.

Lemma last_seqZ (a : Z) (n : nat) :
  last (seqZ a (Z.of_nat (S n))) = Some (a + Z.of_nat n)%Z.
Proof. by rewrite seqZ_S, last_snoc. Qed.

Lemma clear_data_steady (st : plot) : steady st → steady (clear_data true st).
Proof.
  intros [Hal Hf Hb Hl Hr].
  split; [by apply clear_data_aligned|done|done| |].
  - change (len (sample_indices (clear_data true st))) with 0%nat. lia.
  - exists 0%Z. by split.
Qed.

Lemma append_sample_steady (values : gmap pystr Q) (t : Q) (st : plot) :
  steady st → steady (append_sample values t st).1.
Proof.
  intros [Hal Hf Hb Hl (a & Ha & Hr)].
  destruct (append_sample_aligned values t st Hal) as [_ Hal'].
  assert (Hidx : sample_indices (append_sample values t st).1
                 = append (sample_indices st) (next_index st)).
  { unfold append_sample. by destruct (fill_fields _ _ _). }
  assert (Hfs : fields (append_sample values t st).1 = fields st).
  { unfold append_sample. by destruct (fill_fields _ _ _). }
  split; [done|congruence|by rewrite Hidx| |]; rewrite Hidx.
  - rewrite len_append, Hb. destruct (Nat.ltb_spec max_samples (S (len (sample_indices st)))); lia.
  - rewrite len_append, Hb. unfold append, next_index. cbn [items maxlen].
    rewrite Hb, length_app, Nat.add_1_r. fold (len (sample_indices st)).
    rewrite Hr. set (n := len (sample_indices st)) in *.
    destruct n as [|n].
    + cbn [seqZ last]. destruct (Nat.ltb_spec max_samples 1).
      * unfold max_samples in *. lia.
      * exists 0%Z. by split.
    + rewrite last_seqZ.
      replace (seqZ a (Z.of_nat (S n)) ++ [(a + Z.of_nat n + 1)%Z])
        with (seqZ a (Z.of_nat (S (S n)))).
      2:{ rewrite (seqZ_S a (S n)). do 2 f_equal. lia. }
      destruct (Nat.ltb_spec max_samples (S (S n))).
      * exists (a + 1)%Z. split; [lia|].
        rewrite seqZ_cons by lia. cbn [drop]. rewrite drop_0. f_equal; lia.
      * exists a. by split.
Qed.

Section WithUnicode.
Context `{UnicodeDB}.

Lemma handle_line_steady (line : pystr) (t1 t2 : Q) (st : plot) :
  steady st → steady (handle_line line t1 t2 st).1.
Proof.
  intros Hst. pose proof (steady_aligned _ Hst) as Hal.
  unfold handle_line. case_decide; [done|].
  pose proof (append_sample_steady (Parser.parse line) t1 st Hst) as Hs.
  destruct (append_sample_aligned (Parser.parse line) t1 st Hal) as [Hok _].
  destruct (append_sample _ _ _) as [st1 ok]. cbn in Hok, Hs. subst ok.
  destruct (throttle_buffers t2 st1) as (E1 & E2 & E3 & E4).
  pose proof (throttle_aligned t2 st1 (steady_aligned _ Hs)) as Hta.
  destruct (throttle t2 st1) as [drawn st2]. cbn in *.
  destruct Hs as [? ? ? ? ?]. split; rewrite ?E1, ?E3; done.
Qed.

Lemma exec_steady (ops : list op) : steady (exec ops init).
Proof.
  unfold exec. induction ops as [|o ops IH] using rev_ind; [apply init_steady|].
  rewrite foldl_app. cbn [foldl]. destruct o as [line t1 t2|[]|]; cbn [step].
  - by apply handle_line_steady.
  - by apply clear_data_steady.
  - done.
  - by apply clear_data_steady.
Qed.

End WithUnicode.
End SessionFacts.

Module SessionExtras.
Import Deque Plot DequeFacts PlotFacts Session SessionFacts Series.

Lemma append_sample_same (values : gmap pystr Q) (t : Q) (a b : plot) :
  same_series a b →
  same_series (append_sample values t a).1 (append_sample values t b).1
  ∧ (append_sample values t a).2 = (append_sample values t b).2.
Proof.
  intros (Hf & Hb & Hi & Ht). unfold append_sample, next_index.
  rewrite Hf, Hb, Hi, Ht. by destruct (fill_fields _ _ _).
Qed.

Lemma clear_data_same (c : bool) (a b : plot) :
  same_series a b → same_series (clear_data c a) (clear_data c b).
Proof.
  intros (Hf & Hb & Hi & Ht). destruct c; [|done].
  unfold same_series. cbn. by rewrite Hb, Hi, Ht.
Qed.

Lemma throttle_same (now : Q) (st : plot) : same_series (throttle now st).2 st.
Proof.
  destruct (throttle_buffers now st) as (E1 & E2 & E3 & E4). by split_and!.
Qed.

Lemma clear_is_fresh (st : plot) :
  steady st → same_series (clear_data true st) init.
Proof.
  intros [[Hnd Hdom Hb Hl Hfd] Hf Hm _ _]. unfold init, clear_data.
  split_and!; cbn [set_buffers fields data_buffers sample_indices timestamps].
  - done.
  - apply map_eq. intros f. rewrite lookup_fmap, new_buffers_lookup.
    rewrite <- Hf. destruct (decide (f ∈ fields st)) as [Hin|Hin].
    + apply Hdom in Hin as [d Hd]. rewrite Hd. cbn.
      destruct (Hfd f d Hd) as [Hmd _]. unfold clear, new. congruence.
    + destruct (data_buffers st !! f) as [d|] eqn:Hd; [|done].
      destruct Hin. apply Hdom. eauto.
  - unfold clear, new. congruence.
  - unfold clear, new. congruence.
Qed.

Section WithUnicode.
Context `{UnicodeDB}.

Lemma step_same (o : op) (a b : plot) :
  same_series a b → same_series (step a o) (step b o).
Proof.
  intros Hab. destruct o as [line t1 t2|c|]; cbn [step];
    [|by apply clear_data_same..].
  unfold handle_line. case_decide; [done|].
  destruct (append_sample_same (Parser.parse line) t1 a b Hab) as [Hs Hok].
  destruct (append_sample _ _ a) as [a1 oka].
  destruct (append_sample _ _ b) as [b1 okb]. cbn in Hs, Hok. subst okb.
  destruct oka; [|done].
  pose proof (throttle_same t2 a1) as Ha.
  pose proof (throttle_same t2 b1) as Hb.
  destruct (throttle _ a1) as [da a2]. destruct (throttle _ b1) as [db b2].
  cbn in *. destruct Ha as (?&?&?&?), Hb as (?&?&?&?), Hs as (?&?&?&?).
  split_and!; congruence.
Qed.

Lemma exec_same (ops : list op) (a b : plot) :
  same_series a b → same_series (exec ops a) (exec ops b).
Proof.
  unfold exec. revert a b. induction ops as [|o ops IH]; intros a b Hab; [done|].
  cbn [foldl]. apply IH. by apply step_same.
Qed.

(** X6.  At every moment of a session no series holds more than
    [max_samples] entries. *)
Theorem buffers_stay_bounded (ops : list op) :
  (len (sample_indices (exec ops init)) ≤ max_samples)%nat
  ∧ (len (timestamps (exec ops init)) ≤ max_samples)%nat
  ∧ ∀ f d, data_buffers (exec ops init) !! f = Some d →
           (len d ≤ max_samples)%nat.
Proof.
  destruct (exec_steady ops) as [[Hnd Hdom Hb Hl Hfd] Hf Hm Hlen _].
  split_and!; [done|by rewrite Hl|].
  intros f d Hd. destruct (Hfd f d Hd) as [_ ->]. done.
Qed.

(** X7.  At every moment of a session the indices in the store are
    consecutive integers from some non-negative start: no index is skipped
    or repeated, whatever was evicted or cleared before. *)
Theorem indices_are_consecutive (ops : list op) :
  ∃ a, (0 ≤ a)%Z
    ∧ items (sample_indices (exec ops init))
      = seqZ a (Z.of_nat (len (sample_indices (exec ops init)))).
Proof. by destruct (exec_steady ops). Qed.

(** X8.  A line with a parsed value, known or not, appends one entry to the
    buffer of every known field: the buffer keeps its bound and what it
    held, less its oldest entry when it was full, and gains at the right end
    the value parsed for the field, or NaN when the line has none for it.
    Keys outside the known fields get no buffer. *)
Theorem parsed_line_fills_every_field
    (line : pystr) (t1 t2 : Q) (st : plot) :
  aligned st →
  maxlen (sample_indices st) ≠ 0%nat →
  Parser.parse line ≠ ∅ →
  (∀ f d, f ∈ fields st → data_buffers st !! f = Some d →
     ∃ d', data_buffers (handle_line line t1 t2 st).1 !! f = Some d'
           ∧ maxlen d' = maxlen d
           ∧ items d'
             = (if (len d <? maxlen d)%nat then items d else drop 1 (items d))
               ++ [match Parser.parse line !! f with
                   | Some x => Value x
                   | None => NaN
                   end])
  ∧ (∀ f, f ∉ fields st →
       data_buffers (handle_line line t1 t2 st).1 !! f = None).
Proof.
  intros Hal Hm Hne.
  destruct (handle_line_appends line t1 t2 st Hal Hne) as (-> & _ & _).
  destruct Hal as [Hnd Hdom Hb Hl Hfd]. unfold append_sample.
  destruct (fill_fields_spec (fields st) (Parser.parse line)
              (data_buffers st) Hnd) as (bufs' & -> & Hlook).
  { intros f. apply Hdom. }
  cbn [fst data_buffers set_buffers]. split.
  - intros f d Hin Hd. rewrite Hlook, decide_True, Hd by done.
    eexists. split; [done|]. split; [done|].
    destruct (Hfd f d Hd) as [Hmd _]. rewrite <- Hmd in Hm.
    unfold append, value_for, len. cbn [items]. rewrite length_app. cbn [length].
    destruct (Nat.ltb_spec (length (items d)) (maxlen d)) as [Hlt|Hge].
    + by rewrite (proj2 (Nat.ltb_ge _ _)) by lia.
    + rewrite (proj2 (Nat.ltb_lt _ _)) by lia.
      destruct (items d) as [|y ys]; [cbn in Hge; lia|done].
  - intros f Hin. rewrite Hlook, decide_False by done.
    destruct (data_buffers st !! f) eqn:Hd; [|done].
    destruct Hin. apply Hdom. eauto.
Qed.

(** X9.  A confirmed [clear_data], like the start of an acquisition, forgets
    the history: whatever happened before, the buffers then evolve as they
    do from a window just created. *)
Theorem clear_forgets_history (before after : list op) :
  same_series (exec after (clear_data true (exec before init)))
              (exec after init).
Proof. apply exec_same, clear_is_fresh, exec_steady. Qed.

End WithUnicode.

Lemma parsed_line_fills_every_field_witness :
  ∃ d', data_buffers
          (@handle_line ascii_digits_only (py "X:1 D:2") 0 0
             (@exec ascii_digits_only [Received (py "D:1 fom:7") 0 0] init)).1
          !! py "fom"
        = Some d'
      ∧ maxlen d' = 500%nat
      ∧ items d' = [Value 7; NaN].
Proof.
  refine (proj1 (@parsed_line_fills_every_field ascii_digits_only
    (py "X:1 D:2") 0%Q 0%Q
    (@exec ascii_digits_only [Received (py "D:1 fom:7") 0 0] init)
    (steady_aligned _ (@exec_steady ascii_digits_only _)) _ _)
    (py "fom") (Deque.Build 500 [Value 7]) _ _).
  - by vm_compute.
  - by vm_compute.
  - rewrite list_elem_of_In. vm_compute. auto.
  - by vm_compute.
Defined.

End SessionExtras.

(** ** The redraw gate over a run of calls *)

Module ThrottleExtras.
Import Plot Session.
Local Open Scope Q_scope.

Lemma throttle_cases (now : Q) (st : plot) :
  (update_interval st < now - last_update_time st
   ∧ throttle now st = (true, set_last_update_time st now))
  ∨ (now - last_update_time st <= update_interval st
     ∧ throttle now st = (false, st)).
Proof.
  unfold throttle. destruct (Qle_bool _ _) eqn:E.
  - right. split; [by apply Qle_bool_iff|done].
  - left. split; [|done]. apply Qnot_le_lt. intros Hle.
    apply Qle_bool_iff in Hle. congruence.
Qed.

Lemma redraw_times_head (times : list Q) (st : plot) (t : Q) :
  head (redraw_times times st) = Some t →
  update_interval st < t - last_update_time st.
Proof.
  revert st. induction times as [|t0 times IH]; intros st; [done|].
  cbn [redraw_times].
  destruct (throttle_cases t0 st) as [[Hdue ->]|[_ ->]].
  - by intros [= <-].
  - apply IH.
Qed.

(** X10.  However often and whenever the gate is asked, two redraws in a row
    are more than [update_interval] apart, and the first one is more than
    that after the redraw before the run. *)
Theorem redraws_are_spaced (times : list Q) (st : plot) :
  (∀ t, head (redraw_times times st) = Some t →
        update_interval st < t - last_update_time st)
  ∧ (∀ i a b, redraw_times times st !! i = Some a →
              redraw_times times st !! S i = Some b →
              update_interval st < b - a).
Proof.
  split; [intros t; apply redraw_times_head|].
  revert st. induction times as [|t0 times IH]; intros st i a b; [done|].
  cbn [redraw_times].
  destruct (throttle_cases t0 st) as [[Hdue ->]|[_ ->]]; [|apply IH].
  destruct i as [|i].
  - intros [= <-] Hb.
    apply (redraw_times_head times (set_last_update_time st t0)).
    rewrite head_lookup. exact Hb.
  - intros Ha Hb. exact (IH (set_last_update_time st t0) i a b Ha Hb).
Qed.

End ThrottleExtras.

(** ** The reader over runs of passes *)

Module LinkFacts.
Import Codec SerialReader CodecFacts SerialReaderFacts Link.

Lemma emit_emit (evs1 evs2 : list event) (o : outcome) :
  emit evs1 (emit evs2 o) = emit (evs1 ++ evs2) o.
Proof. unfold emit. cbn. by rewrite (assoc_L (++)). Qed.

Lemma emit_nil (o : outcome) : emit [] o = o.
Proof. by destruct o. Qed.

Lemma set_count_same (r : reader) : set_count r (reconnect_count r) = r.
Proof. by destruct r. Qed.

Lemma status_events_retry (r : reader) (c m : Z) :
  status_events (opening_call r ++ [ErrorOccurred (Reconnecting c m); Sleep 1])
  = [Reconnecting c m]
  ∧ pauses (opening_call r ++ [ErrorOccurred (Reconnecting c m); Sleep 1])
    = [1%Q].
Proof. unfold opening_call. by destruct (needs_open r). Qed.

(** Passes that meet a transport error while attempts are left: each one is
    reported with its number, and the loop goes on with the counter raised
    by their number. *)
Lemma loop_retries (fails : list transport) (r : reader) (rest : list input) :
  running r = true →
  Forall (λ t, transport_error r t = true) fails →
  (reconnect_count r + Z.of_nat (length fails) ≤ max_reconnect_attempts r)%Z →
  ∃ evs,
    loop r ((Pass <$> fails) ++ rest)
    = emit evs (loop (set_count r (reconnect_count r + Z.of_nat (length fails)))
                  rest)
    ∧ status_events evs
      = (λ i, Reconnecting (reconnect_count r + Z.of_nat i)
                (max_reconnect_attempts r)) <$> seq 1 (length fails)
    ∧ pauses evs = replicate (length fails) 1%Q.
Proof.
  revert r. induction fails as [|t fails IH]; intros r Hrun Herr Hle.
  - exists []. cbn [length fmap list_fmap app]. cbn [Z.of_nat].
    rewrite Z.add_0_r, set_count_same, emit_nil. done.
  - apply Forall_cons in Herr as [Ht Herr]. cbn [length] in Hle.
    cbn [fmap list_fmap app]. rewrite loop_pass by done.
    rewrite (iteration_retry r t Ht) by (apply Z.leb_le; lia).
    set (r1 := set_count r (reconnect_count r + 1)).
    destruct (IH r1) as (evs & Hloop & Hst & Hp); [done|done|cbn; lia|].
    rewrite Hloop, emit_emit. eexists. split_and!.
    + f_equal. f_equal. unfold r1. destruct r. cbn. f_equal. lia.
    + unfold status_events in *. rewrite omap_app.
      pose proof (status_events_retry r (reconnect_count r + 1)
                    (max_reconnect_attempts r)) as [Hs _].
      unfold status_events in Hs. rewrite Hs, Hst.
      cbn [length seq fmap list_fmap app]. f_equal.
      rewrite <- !fmap_S_seq, <- !list_fmap_compose.
      apply list_fmap_ext. intros i x _. unfold r1. destruct r. cbn.
      f_equal. lia.
    + unfold pauses in *. rewrite omap_app.
      pose proof (status_events_retry r (reconnect_count r + 1)
                    (max_reconnect_attempts r)) as [_ Hs].
      unfold pauses in Hs. by rewrite Hs, Hp.
Qed.

Lemma running_stop (r : reader) : running (stop r) = false.
Proof. unfold stop. by destruct r as [? ? ? [[]|] ? ?]. Qed.

Lemma loop_not_running (r : reader) (inputs : list input) :
  running r = false → loop r inputs = Outcome r [] Stopped.
Proof. intros Hr. destruct inputs; cbn [loop]; by rewrite Hr. Qed.

(** A pass on an open port in which reading raises no [SerialException]
    leaves the reader as it is, and the loop goes on. *)
Lemma iteration_open_port (r : reader) (t : transport) :
  needs_open r = false →
  (∀ e, reading t ≠ ReadSerialException e) →
  ∃ evs, iteration r t = (r, evs, true).
Proof.
  intros Hopen Hno. unfold iteration. rewrite Hopen.
  destruct (reading t) as [|bs|e|e] eqn:E.
  - by eexists.
  - destruct (read_step_line r bs) as (text & _ & ->). by eexists.
  - by destruct (Hno e).
  - by eexists.
Qed.

Lemma decode_from_ascii (h : error_handler) (bs : list N) :
  Forall (λ b, b < 128) bs → decode_from h 0 bs = Some bs.
Proof.
  induction 1 as [|b bs Hb _ IH]; [done|]. cbn [decode_from].
  unfold scan_at. apply N.ltb_lt in Hb. rewrite Hb. cbn [pred].
  by rewrite IH.
Qed.

End LinkFacts.

Module LinkExtras.
Import Codec SerialReader CodecFacts SerialReaderFacts Link LinkFacts.

(** X11.  The reader recovers from failed opens within the bound: after any
    number of failed opens up to [max_reconnect_attempts], each reported with
    its number, a pass that opens the port emits [connection_ready], sets
    the counter back to 0 and leaves the loop running. *)
Theorem recovers_within_the_bound
    (r : reader) (fails : list transport) (t : transport) :
  needs_open r = true →
  reconnect_count r = 0%Z →
  Forall (λ t, transport_error r t = true) fails →
  (Z.of_nat (length fails) ≤ max_reconnect_attempts r)%Z →
  opening t = Opened →
  reading t = NothingWaiting →
  exit (run true r ((Pass <$> fails) ++ [Pass t])) = Looping
  ∧ reconnect_count (final (run true r ((Pass <$> fails) ++ [Pass t]))) = 0%Z
  ∧ ser (final (run true r ((Pass <$> fails) ++ [Pass t]))) = Some true
  ∧ status_events (trace (run true r ((Pass <$> fails) ++ [Pass t])))
    = (λ i, Reconnecting (Z.of_nat i) (max_reconnect_attempts r))
        <$> seq 1 (length fails)
  ∧ ConnectionReady ∈ trace (run true r ((Pass <$> fails) ++ [Pass t])).
Proof.
  intros Hopen Hc Herr Hle Hto Htr. unfold run.
  set (r0 := set_running r true).
  destruct (loop_retries fails r0 [Pass t]) as (evs & -> & Hst & _);
    [done|done|cbn; lia|].
  set (r1 := set_count r0 _).
  assert (Hr1 : running r1 = true) by done.
  assert (Ho1 : needs_open r1 = true) by exact Hopen.
  rewrite loop_pass by done. unfold iteration. rewrite Ho1, Hto, Htr.
  cbn [read_step prepend fst snd app loop set_ser running]. 
  unfold emit. cbn [final trace exit reconnect_count ser set_ser].
  split_and!; try done.
  - unfold status_events in *. rewrite omap_app, Hst. cbn [omap].
    rewrite app_nil_r. apply list_fmap_ext. intros i x _.
    cbn. rewrite Hc. f_equal.
  - apply elem_of_app. right. apply elem_of_cons. right. by left.
Qed.

Lemma recovers_within_the_bound_witness :
  exit (run true default_reader
          ((Pass <$> [open_fails; open_fails; open_fails])
           ++ [Pass (Transport Opened NothingWaiting)])) = Looping.
Proof.
  refine (proj1 (recovers_within_the_bound default_reader
    [open_fails; open_fails; open_fails] (Transport Opened NothingWaiting)
    _ _ _ _ _ _)).
  - reflexivity.
  - reflexivity.
  - repeat constructor.
  - vm_compute. discriminate.
  - reflexivity.
  - reflexivity.
Defined.

Lemma read_failures_cons (t : transport) (ts : list transport) :
  read_failures (t :: ts)
  = match reading t with
    | ReadSerialException _ => S (read_failures ts)
    | _ => read_failures ts
    end.
Proof. unfold read_failures. cbn. by destruct (reading t). Qed.

Lemma loop_open_port (ts : list transport) (r : reader) :
  running r = true → needs_open r = false →
  (reconnect_count r ≤ max_reconnect_attempts r)%Z →
  ((reconnect_count r + Z.of_nat (read_failures ts)
    ≤ max_reconnect_attempts r)%Z →
   exit (loop r (Pass <$> ts)) = Looping
   ∧ reconnect_count (final (loop r (Pass <$> ts)))
     = (reconnect_count r + Z.of_nat (read_failures ts))%Z)
  ∧ ((max_reconnect_attempts r
      < reconnect_count r + Z.of_nat (read_failures ts))%Z →
     exit (loop r (Pass <$> ts)) = Failed).
Proof.
  revert r. induction ts as [|t ts IH]; intros r Hrun Hopen Hc.
  - cbn [fmap list_fmap loop]. rewrite Hrun. unfold read_failures. cbn.
    split; [intros _; split; [done|lia]|lia].
  - cbn [fmap list_fmap]. rewrite loop_pass, read_failures_cons by done.
    destruct (reading t) as [|bs|e|e] eqn:E.
    1,2,4: destruct (iteration_open_port r t Hopen) as [evs ->];
      [intros e'; by rewrite E|];
      destruct (IH r Hrun Hopen Hc) as [H1 H2];
      unfold emit; cbn [exit final]; done.
    assert (Ht : transport_error r t = true).
    { unfold transport_error. by rewrite Hopen, E. }
    destruct (Z.leb_spec (reconnect_count r + 1) (max_reconnect_attempts r))
      as [Hle|Hgt].
    + rewrite (iteration_retry r t Ht) by (by apply Z.leb_le).
      destruct (IH (set_count r (reconnect_count r + 1)) Hrun Hopen Hle)
        as [H1 H2].
      unfold emit. cbn [exit final].
      change (reconnect_count (set_count r (reconnect_count r + 1)))
        with (reconnect_count r + 1)%Z in H1, H2.
      change (max_reconnect_attempts (set_count r (reconnect_count r + 1)))
        with (max_reconnect_attempts r) in H1, H2.
      split.
      * intros Hb. destruct H1 as [-> ->]; [lia|]. split; [done|lia].
      * intros Hb. apply H2. lia.
    + destruct (iteration_give_up r t Ht) as [e' ->]; [by apply Z.leb_gt|].
      cbn [exit]. split; [lia|done].
Qed.

(** X12.  On an open port the counter is never set back: reads that succeed
    between the errors do not count in the reader's favour.  The loop is
    left in [Failed] exactly when the [SerialException]s of the run, added to
    the counter, exceed [max_reconnect_attempts], however far apart they
    are. *)
Theorem read_errors_accumulate (r : reader) (ts : list transport) :
  needs_open r = false →
  (reconnect_count r ≤ max_reconnect_attempts r)%Z →
  ((reconnect_count r + Z.of_nat (read_failures ts)
    ≤ max_reconnect_attempts r)%Z →
   exit (run true r (Pass <$> ts)) = Looping
   ∧ reconnect_count (final (run true r (Pass <$> ts)))
     = (reconnect_count r + Z.of_nat (read_failures ts))%Z)
  ∧ ((max_reconnect_attempts r
      < reconnect_count r + Z.of_nat (read_failures ts))%Z →
     exit (run true r (Pass <$> ts)) = Failed).
Proof.
  intros Hopen Hc. unfold run.
  exact (loop_open_port ts (set_running r true) eq_refl Hopen Hc).
Qed.

Lemma read_errors_accumulate_witness :
  exit (run true (set_ser default_reader (Some true) 0)
          (Pass <$> [Transport Opened (ReadSerialException (py "lost"));
                     Transport Opened (LineRead [x44; x3a; x31; x0a]);
                     Transport Opened (ReadSerialException (py "lost"));
                     Transport Opened (LineRead [x44; x3a; x32; x0a]);
                     Transport Opened (ReadSerialException (py "lost"));
                     Transport Opened (LineRead [x44; x3a; x33; x0a]);
                     Transport Opened (ReadSerialException (py "lost"))]))
  = Failed.
Proof.
  refine (proj2 (read_errors_accumulate
    (set_ser default_reader (Some true) 0) _ _ _) _).
  - reflexivity.
  - vm_compute. discriminate.
  - vm_compute. reflexivity.
Defined.

Lemma loop_after_stop (inputs more : list input) (r : reader) :
  loop r (inputs ++ StopCalled :: more) = loop r (inputs ++ [StopCalled])
  ∧ exit (loop r (inputs ++ [StopCalled])) ≠ Looping.
Proof.
  revert r. induction inputs as [|i inputs IH]; intros r.
  - destruct (running r) eqn:Hr.
    + cbn [app loop]. rewrite Hr, running_stop.
      rewrite loop_not_running by apply running_stop. done.
    + rewrite !loop_not_running by done. done.
  - destruct (running r) eqn:Hr; [|by rewrite !loop_not_running by done].
    cbn [app]. destruct i as [t|].
    + rewrite !loop_pass by done.
      destruct (iteration r t) as [[r' evs] go]. destruct go; [|done].
      destruct (IH r') as [-> Hne]. done.
    + cbn [loop]. rewrite Hr. apply IH.
Qed.

(** X13.  Once [stop()] has been called between two passes the loop ends
    without another pass: whatever the transport would do afterwards, the
    reader emits nothing more, and the run is over. *)
Theorem nothing_after_stop (r : reader) (inputs more : list input) :
  run true r (inputs ++ StopCalled :: more)
  = run true r (inputs ++ [StopCalled])
  ∧ exit (run true r (inputs ++ [StopCalled])) ≠ Looping.
Proof. unfold run. apply loop_after_stop. Qed.

(** X14.  A line of ASCII bytes on an open port reaches the window as it was
    sent, trimmed: the decoder changes nothing, and the line is emitted
    unless only blanks are left. *)
Theorem ascii_line_passes_through
    (r : reader) (o : open_outcome) (bs : list byte) :
  needs_open r = false →
  Forall (λ b, Byte.to_N b < 128) bs →
  iteration r (Transport o (LineRead bs))
  = (r, emitted_for (Byte.to_N <$> bs), true).
Proof.
  intros Hopen Hascii.
  destruct (read_step_line r bs) as (text & Ht & Hstep).
  unfold iteration. rewrite Hopen. cbn [reading]. rewrite Hstep.
  unfold decode in Ht. rewrite decode_from_ascii in Ht.
  - by injection Ht as <-.
  - by apply Forall_fmap.
Qed.

Lemma ascii_line_passes_through_witness :
  iteration (set_ser default_reader (Some true) 0)
    (Transport Opened (LineRead [x20; x44; x3a; x31; x0d; x0a]))
  = (set_ser default_reader (Some true) 0, [DataReceived (py "D:1")], true).
Proof.
  refine (ascii_line_passes_through (set_ser default_reader (Some true) 0)
    Opened [x20; x44; x3a; x31; x0d; x0a] _ _).
  - reflexivity.
  - repeat constructor.
Defined.

End LinkExtras.

(** ** The controls *)

Module WindowExtras.
Import Window.

Lemma update_page_display_valid (p : Z) :
  (0 ≤ p < 3)%Z →
  ∃ pg, update_page_display p = Some pg
        ∧ current_page pg = p
        ∧ (fst <$> getitem page_groups p) = Some (page_label pg)
        ∧ prev_enabled pg = (0 <? p)%Z
        ∧ next_enabled pg = (p <? 2)%Z.
Proof.
  intros Hp.
  assert (Hc : (p = 0 ∨ p = 1 ∨ p = 2)%Z) by lia.
  destruct Hc as [->|[->| ->]]; eexists; by split_and!.
Qed.

(** X15.  Whatever buttons are clicked, the page number stays a valid index
    of [page_groups], no click raises, the label is the name of the page
    shown, and each button is enabled exactly when there is a page on its
    side. *)
Theorem pages_stay_in_range (clicks : list click) :
  (0 ≤ current_page (browse clicks init_pager).1 < Z.of_nat (length page_groups))%Z
  ∧ (browse clicks init_pager).2 = true
  ∧ (fst <$> getitem page_groups (current_page (browse clicks init_pager).1))
    = Some (page_label (browse clicks init_pager).1)
  ∧ prev_enabled (browse clicks init_pager).1
    = (0 <? current_page (browse clicks init_pager).1)%Z
  ∧ next_enabled (browse clicks init_pager).1
    = (current_page (browse clicks init_pager).1
       <? Z.of_nat (length page_groups) - 1)%Z.
Proof.
  assert (Hinv : ∀ pg, (0 ≤ current_page pg < 3)%Z →
            update_page_display (current_page pg) = Some pg →
            let r := browse clicks pg in
            (0 ≤ current_page r.1 < 3)%Z ∧ r.2 = true
            ∧ update_page_display (current_page r.1) = Some r.1).
  { induction clicks as [|c clicks IH]; intros pg Hp Hd; [done|].
    cbn [browse].
    assert (Hstep : ∃ pg', match c with Prev => prev_page pg
                                      | Next => next_page pg end = (pg', true)
              ∧ (0 ≤ current_page pg' < 3)%Z
              ∧ update_page_display (current_page pg') = Some pg').
    { destruct c; unfold prev_page, next_page, turned.
      - destruct (Z.ltb_spec 0 (current_page pg)); [|by eexists].
        destruct (update_page_display_valid (current_page pg - 1))
          as (pg' & Hu & Hcp & _); [lia|].
        rewrite Hu. exists pg'. rewrite Hcp. split_and!; try done; lia.
      - change (Z.of_nat (length page_groups) - 1)%Z with 2%Z.
        destruct (Z.ltb_spec (current_page pg) 2); [|by eexists].
        destruct (update_page_display_valid (current_page pg + 1))
          as (pg' & Hu & Hcp & _); [lia|].
        rewrite Hu. exists pg'. rewrite Hcp. split_and!; try done; lia. }
    destruct Hstep as (pg' & -> & Hp' & Hd').
    destruct (IH pg' Hp' Hd') as (H1 & H2 & H3).
    destruct (browse clicks pg') as [pg'' ok]. cbn in *. by subst ok. }
  destruct (Hinv init_pager) as (H1 & H2 & H3); [done|done|].
  cbn zeta in *.
  destruct (update_page_display_valid _ H1) as (pg & Hu & Hcp & Hl & Hpe & Hne).
  rewrite H3 in Hu. injection Hu as <-.
  change (Z.of_nat (length page_groups)) with 3%Z.
  split_and!; [lia|lia|done|done|done|exact Hne].
Qed.

Lemma any_unchecked_const (b : bool) (cbs : gmap pystr bool) :
  cbs ≠ ∅ → any_unchecked ((λ _, b) <$> cbs) = negb b.
Proof.
  intros Hne. apply map_choose in Hne as (f & x & Hf).
  unfold any_unchecked. destruct b; cbn [negb].
  - apply bool_decide_eq_false. intros (i & y & Hi & Hy).
    rewrite lookup_fmap in Hi. destruct (cbs !! i); cbn in Hi; congruence.
  - apply bool_decide_eq_true. exists f, false. split; [|done].
    by rewrite lookup_fmap, Hf.
Qed.

(** X16.  [select_all] puts every check box in one state: checked when a box
    was unchecked, unchecked when all were checked.  Clicked again it puts
    them all in the other state, so that it alternates between all and
    none. *)
Theorem select_all_alternates (cbs : gmap pystr bool) :
  cbs ≠ ∅ →
  (∀ f, select_all cbs !! f
        = (λ _, any_unchecked cbs) <$> cbs !! f)
  ∧ (any_unchecked cbs = false ↔ ∀ f b, cbs !! f = Some b → b = true)
  ∧ select_all (select_all cbs) = (λ _, negb (any_unchecked cbs)) <$> cbs
  ∧ select_all (select_all (select_all cbs)) = select_all cbs.
Proof.
  intros Hne.
  assert (Hne' : ∀ b : bool, ((λ _ : bool, b) <$> cbs) ≠ (∅ : gmap pystr bool)).
  { intros b Hb. apply fmap_empty_inv in Hb. done. }
  assert (H2 : select_all (select_all cbs)
               = (λ _, negb (any_unchecked cbs)) <$> cbs).
  { unfold select_all at 1. unfold select_all.
    rewrite any_unchecked_const by done.
    rewrite <- map_fmap_compose. done. }
  split_and!.
  - intros f. unfold select_all. apply lookup_fmap.
  - unfold any_unchecked. rewrite bool_decide_eq_false. split.
    + intros Hno f b Hf. destruct b; [done|]. destruct Hno. by exists f, false.
    + intros Hall (f & b & Hf & ->). by specialize (Hall f false Hf).
  - done.
  - unfold select_all at 1. rewrite H2.
    rewrite any_unchecked_const by done.
    rewrite <- map_fmap_compose, negb_involutive. done.
Qed.

Lemma select_all_alternates_witness :
  select_all (select_all init_checkboxes) = (λ _, false) <$> init_checkboxes.
Proof.
  refine (proj1 (proj2 (proj2 (select_all_alternates init_checkboxes _)))).
  intros H. apply (f_equal (λ m, m !! py "D")) in H. vm_compute in H.
  discriminate.
Defined.

End WindowExtras.

(** ** The subplots *)

Module FigureFacts.
Import Deque Plot Window Figure.

(** [omap] keeps the order: the last item kept comes from a position no
    earlier than that of any other item kept. *)
Lemma omap_last_order {A B} (g : A → option B) (l : list A) (p q : B) :
  last (omap g l) = Some q → p ∈ omap g l →
  ∃ i j a b, (i ≤ j)%nat ∧ l !! i = Some a ∧ g a = Some p
             ∧ l !! j = Some b ∧ g b = Some q.
Proof.
  induction l as [|e l IH] using rev_ind; [by intros _ ?%elem_of_nil|].
  rewrite omap_app.
  assert (He1 : omap g [e] = match g e with Some b => [b] | None => [] end)
    by (cbn; by destruct (g e)).
  rewrite He1. destruct (g e) as [b|] eqn:Hg.
  - rewrite last_snoc. intros [= <-]. intros [Hp|Hp]%elem_of_app.
    + apply list_elem_of_omap in Hp as (a & Ha & Hga).
      apply list_elem_of_lookup in Ha as [i Hi].
      exists i, (length l), a, e.
      pose proof (lookup_lt_Some _ _ _ Hi).
      split_and!; [lia|by apply lookup_app_l_Some|done| |done].
      by rewrite lookup_app_r, Nat.sub_diag by lia.
    + apply list_elem_of_singleton in Hp as ->.
      exists (length l), (length l), e, e.
      assert (He : (l ++ [e]) !! length l = Some e)
        by by rewrite lookup_app_r, Nat.sub_diag by lia.
      by split_and!.
  - rewrite app_nil_r. intros Hq Hp.
    destruct (IH Hq Hp) as (i & j & a & b & Hij & Hi & Hga & Hj & Hgb).
    exists i, j, a, b. split_and!; try done; by apply lookup_app_l_Some.
Qed.

End FigureFacts.

Module FigureExtras.
Import Deque Plot Window Figure FigureFacts Session SessionFacts.

Lemma valid_data_lookup (xs : list Z) (ys : list sample_value) (x : Z) (y : Q)
    (i : nat) (p : Z * sample_value) :
  zip xs ys !! i = Some p →
  match p.2 with Value v => Some (p.1, v) | NaN => None end = Some (x, y) →
  xs !! i = Some x.
Proof.
  intros (x' & y' & -> & Hx & Hy)%lookup_zip_with_Some. cbn.
  destruct y'; [|done]. by intros [= <- <-].
Qed.

(** X17.  In a session every point of a subplot lies within the limits given
    to its x axis, which start at or after 0 and are never empty: the axis
    runs from before the oldest index the buffers can hold to 10 after the
    newest point drawn. *)
Theorem points_within_x_limits (st : plot) (f : pystr) (c : curve) :
  steady st →
  curve_of st f = Some c →
  cv_points c ≠ [] →
  ∃ xlo xhi, cv_xlim c = Some (xlo, xhi)
    ∧ (0 ≤ xlo < xhi)%Z
    ∧ (xhi - xlo ≤ Z.of_nat max_samples + 10)%Z
    ∧ ∀ x y, (x, y) ∈ cv_points c → (xlo ≤ x ≤ xhi - 10)%Z.
Proof.
  intros [[Hnd Hdom Hb Hl Hfd] Hf Hm Hlen (a & Ha & Hrun)] Hax Hne.
  unfold curve_of in Hax.
  destruct (data_buffers st !! f) as [d|] eqn:Hd; [|done].
  destruct (Hfd f d Hd) as [_ Hld]. unfold len in Hld, Hlen, Hrun.
  rewrite Hld, Nat.min_id in Hax.
  rewrite (take_ge (items (sample_indices st))) in Hax by lia.
  rewrite (take_ge (items d)) in Hax by lia.
  set (n := length (items (sample_indices st))) in *.
  destruct (items (sample_indices st)) as [|x0 xs0] eqn:Ex;
    [injection Hax as <-; done|].
  destruct (items d) as [|y0 ys0] eqn:Ey; [injection Hax as <-; done|].
  set (valid := valid_data (x0 :: xs0) (y0 :: ys0)) in *.
  destruct (last valid) as [[xl yl]|] eqn:Hlast; [|injection Hax as <-; done].
  destruct (index_of f (fields st)) as [ci|]; [|done].
  injection Hax as <-. cbn [cv_points cv_xlim] in *.
  assert (Hpos : ∀ x y, (x, y) ∈ valid →
            ∃ i j, (i ≤ j < n)%nat ∧ x = (a + Z.of_nat i)%Z
                   ∧ xl = (a + Z.of_nat j)%Z).
  { intros x y Hin.
    destruct (omap_last_order _ _ (x, y) (xl, yl) Hlast Hin)
      as (i & j & pa & pb & Hij & Hi & Hga & Hj & Hgb).
    apply (valid_data_lookup _ _ x y) in Hi; [|done].
    apply (valid_data_lookup _ _ xl yl) in Hj; [|done].
    rewrite Hrun in Hi, Hj.
    apply lookup_seqZ in Hi as [-> Hi], Hj as [-> Hj].
    exists i, j. split; [lia|done]. }
  assert (Hxl : (0 ≤ xl)%Z).
  { destruct (Hpos xl yl) as (i & j & _ & _ & ->); [|lia].
    by apply last_Some_elem_of. }
  unfold max_samples in *.
  eexists _, _. split; [done|]. split; [lia|]. split; [lia|].
  intros x y Hin. destruct (Hpos x y Hin) as (i & j & Hij & -> & ->). lia.
Qed.

Lemma curve_of_some (st : plot) (f : pystr) :
  steady st → f ∈ fields st → is_Some (curve_of st f).
Proof.
  intros [[Hnd Hdom Hb Hl Hfd] Hf Hm Hlen _] Hin. unfold curve_of.
  destruct (proj1 (Hdom f) Hin) as [d ->].
  destruct (take _ (items (sample_indices st))); [by eexists|].
  destruct (take _ (items d)); [by eexists|].
  destruct (last _) as [[xl yl]|]; [|by eexists].
  destruct (list_find_elem_of (λ g, g = f) (fields st) f Hin eq_refl)
    as [[i g] Hfind].
  unfold index_of. rewrite Hfind. by eexists.
Qed.

Lemma page_fields_known (page : Z) (name : pystr) (fs : list pystr) :
  getitem page_groups page = Some (name, fs) →
  Forall (λ f, f ∈ known_fields) fs.
Proof.
  intros Hg. assert (Hin : (name, fs) ∈ page_groups).
  { unfold getitem in Hg. destruct (0 <=? page)%Z.
    - by eapply list_elem_of_lookup_2.
    - destruct (_ <=? page)%Z; [|done]. by eapply list_elem_of_lookup_2. }
  unfold page_groups in Hin. rewrite !elem_of_cons, elem_of_nil in Hin.
  destruct Hin as [[= -> ->]|[[= -> ->]|[[= -> ->]|[]]]];
    apply (bool_decide_unpack (Forall (λ f, f ∈ known_fields) _));
    by vm_compute.
Qed.

(** X18.  In a session the subscripts of [update_plots] raise nothing: for
    every page the buttons can reach and every state of the check boxes, the
    page has its group, and every field that gets a subplot (the checked
    fields of the page) is a known field with a buffer and, where points are
    drawn, an index in [self.fields] for its colour. *)
Theorem update_plots_lookups_succeed
    (st : plot) (cbs : gmap pystr bool) (page : Z) :
  steady st →
  (0 ≤ page < Z.of_nat (length page_groups))%Z →
  ∃ fs, current_fields cbs page = Some fs
    ∧ ∀ f, f ∈ fs →
        f ∈ known_fields
        ∧ is_Some (data_buffers st !! f)
        ∧ ∃ c, curve_of st f = Some c
               ∧ (cv_points c ≠ [] → is_Some (cv_colour c)).
Proof.
  intros Hst Hpage. unfold current_fields.
  destruct (getitem page_groups page) as [[name gf]|] eqn:Hg.
  2:{ unfold getitem in Hg. destruct (Z.leb_spec 0 page); [|lia].
      apply lookup_ge_None in Hg. lia. }
  eexists. split; [done|].
  pose proof (page_fields_known page name gf Hg) as Hknown.
  intros f [_ Hf]%list_elem_of_filter.
  rewrite Forall_forall in Hknown. specialize (Hknown f Hf).
  assert (Hin : f ∈ fields st) by by rewrite (steady_fields _ Hst).
  split; [done|]. split.
  { by apply (aligned_dom _ (steady_aligned _ Hst)). }
  destruct (curve_of_some st f Hst Hin) as [c Hc]. exists c. split; [done|].
  unfold curve_of in Hc.
  destruct (data_buffers st !! f); [|done].
  destruct (take _ (items (sample_indices st))); [by injection Hc as <-|].
  destruct (take _ (items _)); [by injection Hc as <-|].
  destruct (last _) as [[xl yl]|]; [|by injection Hc as <-].
  destruct (index_of f (fields st)); [|done].
  injection Hc as <-. by eexists.
Qed.

End FigureExtras.

(** ** The saved table *)

Module CsvExtras.
Import Deque Plot Csv.

Lemma checked_fields_some (fs : list pystr) (cbs : gmap pystr bool) :
  (∀ f, f ∈ fs → is_Some (cbs !! f)) →
  checked_fields fs cbs = Some (filter (λ f, cbs !! f = Some true) fs).
Proof.
  induction fs as [|f fs IH]; intros Hall; [done|].
  cbn [checked_fields]. destruct (Hall f) as [b Hb]; [by left|].
  rewrite Hb, IH by (intros g Hg; apply Hall; by right).
  rewrite filter_cons. destruct b.
  - by rewrite decide_True by done.
  - by rewrite decide_False by congruence.
Qed.

Lemma row_some (st : plot) (selected : list pystr) (i : nat) (x : Z) :
  (∀ f, f ∈ selected → is_Some (data_buffers st !! f)) →
  ∃ cells,
    row st selected i x = Some (IndexCell x :: stamp_cells st i ++ cells)
    ∧ length cells = length selected
    ∧ ∀ j f, selected !! j = Some f →
        ∃ d, data_buffers st !! f = Some d
             ∧ cells !! j = Some (cell_of_value (items d !! i)).
Proof.
  intros Hall. unfold row.
  assert (H : ∃ cells, mapM (field_cell st i) selected = Some cells
            ∧ length cells = length selected
            ∧ ∀ j f, selected !! j = Some f →
                ∃ d, data_buffers st !! f = Some d
                     ∧ cells !! j = Some (cell_of_value (items d !! i))).
  { induction selected as [|f fs IH].
    - exists []. by split_and!.
    - destruct (Hall f) as [d Hd]; [by left|].
      destruct IH as (cells & Hm & Hlen & Hcells).
      { intros g Hg. apply Hall. by right. }
      exists (cell_of_value (items d !! i) :: cells).
      assert (Hfc : field_cell st i f = Some (cell_of_value (items d !! i)))
        by (unfold field_cell; by rewrite Hd).
      change (mapM (field_cell st i) (f :: fs))
        with (y ← field_cell st i f; k ← mapM (field_cell st i) fs;
              mret (y :: k)).
      rewrite Hfc, Hm.
      split_and!; [done|by cbn; rewrite Hlen|].
      intros [|j] g Hg.
      + change (Some f = Some g) in Hg. injection Hg as <-. by exists d.
      + change (fs !! j = Some g) in Hg.
        destruct (Hcells j g Hg) as (d' & Hd' & Hc). by exists d'. }
  destruct H as (cells & -> & Hlen & Hcells). by exists cells.
Qed.

Lemma write_rows_spec (st : plot) (selected : list pystr) (i : nat)
    (indices : list Z) :
  (∀ f, f ∈ selected → is_Some (data_buffers st !! f)) →
  ∃ rows,
    write_rows st selected i indices = (rows, true)
    ∧ length rows = length indices
    ∧ ∀ k x, indices !! k = Some x → rows !! k = row st selected (i + k) x.
Proof.
  intros Hall. revert i. induction indices as [|x rest IH]; intros i.
  - exists []. by split_and!.
  - cbn [write_rows].
    destruct (row_some st selected i x Hall) as (cells & Hrow & _).
    rewrite Hrow. destruct (IH (S i)) as (rows & -> & Hlen & Hrows).
    eexists. split_and!; [done|by cbn; rewrite Hlen|].
    intros [|k] y Hy.
    + change (Some x = Some y) in Hy. injection Hy as <-.
      rewrite Nat.add_0_r, Hrow. done.
    + change (rest !! k = Some y) in Hy.
      change (rows !! k = row st selected (i + S k) y).
      rewrite (Hrows k y Hy). f_equal. lia.
Qed.

(** X19.  With data in the store, a file chosen and opened, and a check box
    for every field, [save_data] writes a rectangular table: a header with
    the three fixed columns and the checked fields in the order of
    [self.fields], then one row per sample in the store, oldest first, each
    as long as the header.  Row [i] starts with the index and the time of
    sample [i], and its cell for a checked field holds the value of the
    field in that sample, or the empty string where the value is NaN. *)
Theorem saved_table_is_rectangular
    (st : plot) (cbs : gmap pystr bool) (filename : pystr) :
  aligned st →
  items (sample_indices st) ≠ [] →
  filename ≠ [] →
  (∀ f, f ∈ fields st → is_Some (cbs !! f)) →
  ∃ rows,
    let selected := filter (λ f, cbs !! f = Some true) (fields st) in
    save_data st cbs filename true
    = Written ((Word <$> (fixed_headers ++ selected)) :: rows)
    ∧ length rows = len (sample_indices st)
    ∧ ∀ i r, rows !! i = Some r →
        length r = (3 + length selected)%nat
        ∧ (∃ x t, items (sample_indices st) !! i = Some x
                  ∧ items (timestamps st) !! i = Some t
                  ∧ take 3 r = [IndexCell x; StampCell t; DateCell t])
        ∧ ∀ j f, selected !! j = Some f →
            ∃ d, data_buffers st !! f = Some d
                 ∧ r !! (3 + j)%nat = Some (cell_of_value (items d !! i)).
Proof.
  intros [Hnd Hdom Hb Hl Hfd] Hne Hfile Hcbs. cbn zeta.
  set (selected := filter (λ f, cbs !! f = Some true) (fields st)).
  assert (Hsel : ∀ f, f ∈ selected → is_Some (data_buffers st !! f)).
  { intros f [_ Hf]%list_elem_of_filter. by apply Hdom. }
  destruct (write_rows_spec st selected 0 (items (sample_indices st)) Hsel)
    as (rows & Hw & Hlen & Hrows).
  exists rows. unfold save_data.
  destruct (items (sample_indices st)) as [|x0 xs] eqn:Ex; [done|].
  destruct filename as [|c fn]; [done|].
  rewrite checked_fields_some by done. fold selected. rewrite Hw.
  split_and!; [done|by unfold len; rewrite Ex|].
  intros i r Hr.
  destruct (lookup_lt_is_Some_2 (x0 :: xs) i) as [x Hx].
  { rewrite <- Hlen. by eapply lookup_lt_Some. }
  rewrite (Hrows i x Hx) in Hr. cbn [Nat.add] in Hr.
  destruct (row_some st selected i x Hsel) as (cells & Hrow & Hcl & Hcells).
  rewrite Hrow in Hr. injection Hr as <-.
  destruct (lookup_lt_is_Some_2 (items (timestamps st)) i) as [t Ht].
  { unfold len in Hl. rewrite Hl, Ex. by eapply lookup_lt_Some. }
  unfold stamp_cells. rewrite Ht. split_and!.
  - cbn. by rewrite Hcl.
  - by exists x, t.
  - intros j f Hj. destruct (Hcells j f Hj) as (d & Hd & Hc). by exists d.
Qed.

End CsvExtras.

(** ** The extras on a first sample *)

Module FirstSample.
Import Deque Plot PlotFacts Window Figure Csv Session SessionFacts.

Lemma points_within_x_limits_witness :
  curve_of (@exec ascii_digits_only
              [Received (py "D:1") 0 0; Received (py "fom:2") 0 0;
               Received (py "D:3") 0 0] init) (py "D")
  = Some (Curve [(0%Z, 1%Q); (2%Z, 3%Q)] (Some 0%nat) (Some (0, 12)%Z))
  ∧ ∃ xlo xhi, (0 ≤ xlo < xhi)%Z
      ∧ ∀ x y, (x, y) ∈ [(0%Z, 1%Q); (2%Z, 3%Q)] → (xlo ≤ x ≤ xhi - 10)%Z.
Proof.
  assert (E : curve_of (@exec ascii_digits_only
                [Received (py "D:1") 0 0; Received (py "fom:2") 0 0;
                 Received (py "D:3") 0 0] init) (py "D")
              = Some (Curve [(0%Z, 1%Q); (2%Z, 3%Q)] (Some 0%nat) (Some (0, 12)%Z)))
    by (by vm_compute).
  split; [exact E|].
  destruct (FigureExtras.points_within_x_limits _ (py "D") _
              (@exec_steady ascii_digits_only _) E)
    as (xlo & xhi & _ & H2 & _ & H4); [discriminate|].
  exists xlo, xhi. split; [exact H2|exact H4].
Defined.

Lemma update_plots_lookups_succeed_witness :
  current_fields init_checkboxes 0 = Some [py "D"]
  ∧ is_Some (curve_of (@exec ascii_digits_only [Received (py "D:1") 0 0] init)
               (py "D")).
Proof.
  destruct (FigureExtras.update_plots_lookups_succeed
              (@exec ascii_digits_only [Received (py "D:1") 0 0] init)
              init_checkboxes 0 (@exec_steady ascii_digits_only _))
    as (fs & Hfs & Hall).
  - vm_compute. split; [discriminate|reflexivity].
  - split; [by vm_compute|].
    assert (Hfs' : current_fields init_checkboxes 0 = Some [py "D"])
      by (by vm_compute).
    rewrite Hfs' in Hfs. injection Hfs as <-.
    destruct (Hall (py "D")) as (_ & _ & c & Hc & _).
    + rewrite list_elem_of_In. simpl. auto.
    + rewrite Hc. by eexists.
Defined.

Lemma saved_table_is_rectangular_witness :
  ∃ header rows,
    save_data (@handle_line ascii_digits_only (py "D:1") 0 0 init).1
      init_checkboxes (py "out.csv") true
    = Written (header :: rows)
    ∧ length rows = 1%nat.
Proof.
  destruct (CsvExtras.saved_table_is_rectangular
              (@handle_line ascii_digits_only (py "D:1") 0 0 init).1
              init_checkboxes (py "out.csv"))
    as (rows & Hs & Hlen & _).
  - apply (@handle_line_aligned ascii_digits_only), init_aligned.
  - by vm_compute.
  - by vm_compute.
  - apply Forall_forall.
    apply (bool_decide_unpack
             (Forall (λ f, is_Some (init_checkboxes !! f)) _)).
    by vm_compute.
  - eexists _, rows. split; [exact Hs|]. rewrite Hlen. reflexivity.
Defined.

End FirstSample.
